(** * Query service of strapi-plugin-sitemap ([server/services/query.js])

    A shallow embedding of the field/relation aggregation, of the page query
    assembled by [getPages], and of the sitemap / sitemap-cache persistence
    helpers over an explicit store. *)

From Stdlib Require Import String Ascii List Bool ZArith Lia.
Import ListNotations.
Open Scope string_scope.
Open Scope Z_scope.
Open Scope list_scope.
Set Warnings "-register-all".


(** ** Errors and the error monad *)

(** The two ways a call can throw: a JS [TypeError] (property access or
    [Object.entries] on [undefined]) and the pattern service's syntax
    error. *)
Inductive error :=
| TypeError
| PatternSyntaxError.

Inductive result (A : Type) :=
| Ok (a : A)
| Err (e : error).
Arguments Ok {A} a.
Arguments Err {A} e.

Definition bind {A B} (r : result A) (k : A -> result B) : result B :=
  match r with
  | Ok a => k a
  | Err e => Err e
  end.

Notation "x <- c ;; k" := (bind c (fun x => k))
  (at level 61, c at next level, right associativity).

(** ** JS helpers *)

(** Membership of a string in an array / set. *)
Definition mem (x : string) (l : list string) : bool :=
  existsb (String.eqb x) l.

(** [[...new Set(xs)]]: first occurrences, in insertion order. *)
Fixpoint set_add_all (acc : list string) (xs : list string) : list string :=
  match xs with
  | [] => acc
  | x :: r => if mem x acc then set_add_all acc r else set_add_all (acc ++ [x]) r
  end.

Definition new_Set (xs : list string) : list string := set_add_all [] xs.

(** A JS object with string keys: an association list in key-insertion
    order. [obj_set o k v] is [o[k] = v]: an existing key keeps its
    position and gets the new value, a new key is appended. *)
Definition obj (V : Type) := list (string * V).

Fixpoint obj_get {V} (o : obj V) (k : string) : option V :=
  match o with
  | [] => None
  | (k', v) :: r => if String.eqb k k' then Some v else obj_get r k
  end.

Fixpoint obj_set {V} (o : obj V) (k : string) (v : V) : obj V :=
  match o with
  | [] => [(k, v)]
  | (k', v') :: r => if String.eqb k k' then (k', v) :: r else (k', v') :: obj_set r k v
  end.

(** [{ ...a, ...b }] *)
Definition obj_spread {V} (a b : obj V) : obj V :=
  fold_left (fun o kv => obj_set o (fst kv) (snd kv)) b a.

(** ** Configuration *)

(** [{ pattern }] of one language. *)
Record LanguageConfig := { pattern : string }.

(** One entry of [config.contentTypes]; [languages] may be missing
    ([None] is [undefined]). *)
Record ContentTypeConfig := { languages : option (obj LanguageConfig) }.

(** ** The pattern service ([getService('pattern')]) *)

Record PatternService := {
  getFieldsFromPattern : string -> bool -> option string -> result (list string);
  getRelationsFromPattern : string -> result (list string)
}.

Section Query.

Variable svc : PatternService.

(** ** getFieldsFromConfig (query.js, lines 20-41)

    [contentType] is [None] when [undefined]; the [relation] argument is
    [None] when omitted. [Object.entries(undefined)] throws. *)
Fixpoint push_fields (langs : obj LanguageConfig) (topLevel : bool)
    (relation : option string) (fields : list string) : result (list string) :=
  match langs with
  | [] => Ok fields
  | (_langcode, l) :: r =>
      fs <- getFieldsFromPattern svc (pattern l) topLevel relation ;;
      push_fields r topLevel relation (fields ++ fs)
  end.

Definition getFieldsFromConfig (contentType : option ContentTypeConfig)
    (topLevel isLocalized : bool) (relation : option string) : result (list string) :=
  fields <- match contentType with
            | Some ct =>
                match languages ct with
                | Some langs => push_fields langs topLevel relation []
                | None => Err TypeError
                end
            | None => Ok []
            end ;;
  let fields := if topLevel
                then (if isLocalized then fields ++ ["locale"] else fields) ++ ["updatedAt"]
                else fields in
  Ok (new_Set fields).

(** ** getRelationsFromConfig (query.js, lines 51-66) *)

(** The value stored under a relation key: [{ fields }]. *)
Record RelationFields := { rel_fields : list string }.

(** [relations.map((relation) => { relationsObject[relation] = ... })] *)
Fixpoint set_relations (contentType : option ContentTypeConfig) (relations : list string)
    (relationsObject : obj RelationFields) : result (obj RelationFields) :=
  match relations with
  | [] => Ok relationsObject
  | relation :: rs =>
      fs <- getFieldsFromConfig contentType false false (Some relation) ;;
      set_relations contentType rs (obj_set relationsObject relation {| rel_fields := fs |})
  end.

(** [Object.entries(contentType['languages']).map(...)] *)
Fixpoint relations_of_languages (contentType : option ContentTypeConfig)
    (langs : obj LanguageConfig) (relationsObject : obj RelationFields)
    : result (obj RelationFields) :=
  match langs with
  | [] => Ok relationsObject
  | (_langcode, l) :: r =>
      relations <- getRelationsFromPattern svc (pattern l) ;;
      o <- set_relations contentType relations relationsObject ;;
      relations_of_languages contentType r o
  end.

Definition getRelationsFromConfig (contentType : option ContentTypeConfig)
    : result (obj RelationFields) :=
  match contentType with
  | Some ct =>
      match languages ct with
      | Some langs => relations_of_languages contentType langs []
      | None => Err TypeError
      end
  | None => Ok []
  end.

End Query.

(** ** Runtime metadata ([strapi.contentTypes[uid]]) and plugin config *)

Record ContentTypeOptions := { draftAndPublish : option bool }.
Record I18nOptions := { localized : option bool }.
Record PluginOptions := { i18n : option I18nOptions }.

(** Optional keys are [None] when missing ([undefined]). *)
Record ContentTypeSchema := {
  options : option ContentTypeOptions;
  pluginOptions : option PluginOptions
}.

Record Config := {
  excludeDrafts : option bool;
  contentTypes : obj ContentTypeConfig
}.

(** JS truthiness of an optional boolean. *)
Definition truthy (b : option bool) : bool :=
  match b with
  | Some true => true
  | _ => false
  end.

(** JS truthiness of an optional number ([id ? ... : ...]). *)
Definition truthy_num (n : option Z) : bool :=
  match n with
  | Some z => negb (Z.eqb z 0)
  | None => false
  end.

(** ** Filters handed to the entity service *)

Inductive Value :=
| VNull
| VBool (b : bool)
| VNum (z : Z)
| VStr (s : string).

(** The operator object under a field: [{}], [{ $null }], [{ $eq }],
    [{ $notNull }]. *)
Inductive Cond :=
| CEmpty
| CNull (b : bool)
| CEq (v : Value)
| CNotNull (b : bool).

(** A filter object: its keys are conjoined, [$or] takes a disjunction. *)
Inductive Filter :=
| FField (field : string) (c : Cond)
| FOr (fs : list Filter)
| FAnd (fs : list Filter).

(** A stored entry, missing attributes read as [null]. *)
Definition Entry := obj Value.

Definition field_value (e : Entry) (f : string) : Value :=
  match obj_get e f with
  | Some v => v
  | None => VNull
  end.

Definition is_null (v : Value) : bool :=
  match v with VNull => true | _ => false end.

Definition value_eqb (v w : Value) : bool :=
  match v, w with
  | VNull, VNull => true
  | VBool a, VBool b => Bool.eqb a b
  | VNum a, VNum b => Z.eqb a b
  | VStr a, VStr b => String.eqb a b
  | _, _ => false
  end.

(** The meaning of the operators, as the entity service applies them. *)
Definition cond_holds (v : Value) (c : Cond) : bool :=
  match c with
  | CEmpty => true
  | CNull b => Bool.eqb (is_null v) b
  | CEq w => value_eqb v w
  | CNotNull b => Bool.eqb (negb (is_null v)) b
  end.

Fixpoint filter_holds (e : Entry) (f : Filter) : bool :=
  match f with
  | FField k c => cond_holds (field_value e k) c
  | FOr fs => existsb (filter_holds e) fs
  | FAnd fs => forallb (filter_holds e) fs
  end.

(** ** The fetch specification passed to [noLimit] *)

Inductive PopulateEntry :=
| PopRelation (r : RelationFields)
| PopLocalizations (fields : list string) (populate : obj RelationFields).

Record FetchSpec := {
  fs_where : Filter;
  fs_filters : Filter;
  fs_locale : string;
  fs_fields : list string;
  fs_populate : obj PopulateEntry;
  fs_orderBy : string
}.

(** [m.pluginOptions?.i18n?.localized] *)
Definition i18n_localized (m : ContentTypeSchema) : option bool :=
  match pluginOptions m with
  | Some p => match i18n p with
              | Some i => localized i
              | None => None
              end
  | None => None
  end.

Section Pages.

Variable svc : PatternService.

(** [strapi.contentTypes] *)
Variable strapi_contentTypes : obj ContentTypeSchema.

(** The object built at lines 86-105. *)
Definition pageFilters (id : option Z) (excludeDrafts : bool) : Filter :=
  FAnd [ FOr [ FField "sitemap_exclude" (CNull true);
               FField "sitemap_exclude" (CEq (VBool false)) ];
         FField "id" (if truthy_num id then CEq (VNum (match id with Some z => z | None => 0 end))
                      else CEmpty);
         FField "published_at" (if excludeDrafts then CNotNull true else CEmpty) ].

(** [{ localizations: { fields, populate: relations }, ...relations }] *)
Definition pagePopulate (fields : list string) (relations : obj RelationFields)
    : obj PopulateEntry :=
  obj_spread [("localizations", PopLocalizations fields relations)]
             (map (fun kv => (fst kv, PopRelation (snd kv))) relations).

(** Lines 77-120 up to the call of [noLimit]: the fetch specification
    [getPages] hands to it. *)
Definition getPagesQuery (config : Config) (contentType : string) (id : option Z)
    : result FetchSpec :=
  let meta := obj_get strapi_contentTypes contentType in
  excludeDrafts <- (if truthy (excludeDrafts config)
                    then match meta with
                         | Some m => match options m with
                                     | Some o => Ok (truthy (draftAndPublish o))
                                     | None => Err TypeError
                                     end
                         | None => Err TypeError
                         end
                    else Ok false) ;;
  isLocalized <- match meta with
                 | Some m => Ok (i18n_localized m)
                 | None => Err TypeError
                 end ;;
  let ct := obj_get (contentTypes config) contentType in
  relations <- getRelationsFromConfig svc ct ;;
  fields <- getFieldsFromConfig svc ct true (truthy isLocalized) None ;;
  let filters := pageFilters id excludeDrafts in
  Ok {| fs_where := filters;
        fs_filters := filters;
        fs_locale := "all";
        fs_fields := fields;
        fs_populate := pagePopulate fields relations;
        fs_orderBy := "id" |}.

(** [getPages]: the pages are what the external paginated fetch [noLimit]
    returns for that specification. *)
Definition getPages {Page : Type} (noLimit : string -> FetchSpec -> list Page)
    (config : Config) (contentType : string) (id : option Z) : result (list Page) :=
  q <- getPagesQuery config contentType id ;;
  Ok (noLimit contentType q).

End Pages.

(** ** The entity service over the two plugin tables *)

(** A row of [plugin::sitemap.sitemap]. *)
Record Sitemap := {
  sm_id : Z;
  sitemap_string : string;
  sm_name : string;
  delta : Z
}.

(** A row of [plugin::sitemap.sitemap-cache]. *)
Record SitemapCache := {
  smc_id : Z;
  sitemap_json : string;
  smc_name : string
}.

(** Both tables, with the next primary key of each. *)
Record Store := {
  sitemaps : list Sitemap;
  sitemap_caches : list SitemapCache;
  next_sitemap_id : Z;
  next_cache_id : Z
}.

(** [findMany] returns the matching rows in table order. *)
Definition findMany_sitemap (s : Store) (name : string) (d : option Z) : list Sitemap :=
  filter (fun r => String.eqb (sm_name r) name &&
                   match d with Some d => Z.eqb (delta r) d | None => true end)
         (sitemaps s).

Definition findMany_cache (s : Store) (name : string) : list SitemapCache :=
  filter (fun r => String.eqb (smc_name r) name) (sitemap_caches s).

(** [delete(uid, id)]: removes the row with that primary key. *)
Definition delete_sitemap (s : Store) (id : Z) : Store :=
  {| sitemaps := filter (fun r => negb (Z.eqb (sm_id r) id)) (sitemaps s);
     sitemap_caches := sitemap_caches s;
     next_sitemap_id := next_sitemap_id s;
     next_cache_id := next_cache_id s |}.

Definition delete_cache (s : Store) (id : Z) : Store :=
  {| sitemaps := sitemaps s;
     sitemap_caches := filter (fun r => negb (Z.eqb (smc_id r) id)) (sitemap_caches s);
     next_sitemap_id := next_sitemap_id s;
     next_cache_id := next_cache_id s |}.

(** [create(uid, { data })]: inserts a row under a fresh primary key. *)
Definition create_sitemap (s : Store) (str name : string) (d : Z) : Store :=
  {| sitemaps := sitemaps s ++ [{| sm_id := next_sitemap_id s; sitemap_string := str;
                                  sm_name := name; delta := d |}];
     sitemap_caches := sitemap_caches s;
     next_sitemap_id := next_sitemap_id s + 1;
     next_cache_id := next_cache_id s |}.

Definition create_cache (s : Store) (json name : string) : Store :=
  {| sitemaps := sitemaps s;
     sitemap_caches := sitemap_caches s ++ [{| smc_id := next_cache_id s; sitemap_json := json;
                                              smc_name := name |}];
     next_sitemap_id := next_sitemap_id s;
     next_cache_id := next_cache_id s + 1 |}.

(** [update(uid, id, { data })] *)
Definition update_cache (s : Store) (id : Z) (json name : string) : Store :=
  {| sitemaps := sitemaps s;
     sitemap_caches := map (fun r => if Z.eqb (smc_id r) id
                                     then {| smc_id := smc_id r; sitemap_json := json;
                                             smc_name := name |}
                                     else r) (sitemap_caches s);
     next_sitemap_id := next_sitemap_id s;
     next_cache_id := next_cache_id s |}.

(** ** createSitemap, deleteSitemap (query.js, lines 134-154, 182-193) *)

Definition createSitemap (s : Store) (sitemapString name : string) (d : Z) : Store :=
  let s := match findMany_sitemap s name (Some d) with
           | r :: _ => delete_sitemap s (sm_id r)
           | [] => s
           end in
  create_sitemap s sitemapString name d.

(** [Promise.all] over deletions of distinct keys: applied in turn. *)
Definition deleteSitemap (s : Store) (name : string) : Store :=
  fold_left (fun s sm => delete_sitemap s (sm_id sm)) (findMany_sitemap s name None) s.

(** ** createSitemapCache, updateSitemapCache (query.js, lines 203-247) *)

Definition createSitemapCache (s : Store) (sitemapJson name : string) : Store :=
  let s := match findMany_cache s name with
           | r :: _ => delete_cache s (smc_id r)
           | [] => s
           end in
  create_cache s sitemapJson name.

Definition updateSitemapCache (s : Store) (sitemapJson name : string) : Store :=
  match findMany_cache s name with
  | r :: _ => update_cache s (smc_id r) sitemapJson name
  | [] => s
  end.

(** ** getSitemap, getSitemapCache (query.js, lines 164-173, 256-264)

    [sitemap[0]] of the [findMany] result; [None] is [undefined]. *)
Definition getSitemap (s : Store) (name : string) (d : Z) : option Sitemap :=
  hd_error (findMany_sitemap s name (Some d)).

Definition getSitemapCache (s : Store) (name : string) : option SitemapCache :=
  hd_error (findMany_cache s name).

(** ** Store invariants *)

(** Primary keys are distinct and below the next key of their table. *)
Definition store_wf (s : Store) : Prop :=
  NoDup (map sm_id (sitemaps s)) /\ Forall (fun r => sm_id r < next_sitemap_id s) (sitemaps s) /\
  NoDup (map smc_id (sitemap_caches s)) /\
  Forall (fun r => smc_id r < next_cache_id s) (sitemap_caches s).

(** At most one sitemap row per [(name, delta)]. *)
Definition sitemap_keys_unique (s : Store) : Prop :=
  forall name d, (length (findMany_sitemap s name (Some d)) <= 1)%nat.

(** At most one cache row per [name]. *)
Definition cache_names_unique (s : Store) : Prop :=
  forall name, (length (findMany_cache s name) <= 1)%nat.

(** A store with no rows. *)
Definition empty_store : Store :=
  {| sitemaps := []; sitemap_caches := []; next_sitemap_id := 1; next_cache_id := 1 |}.

(** ** The pattern service *)

Module SpecPattern.

(** Modelled from the spec: the pattern service ([getFieldsFromPattern],
    [getRelationsFromPattern] of [server/services/pattern.js]) is not part
    of this source tree. Following §4.1 of the spec, a pattern's tokens are
    the bracketed placeholders [[...]] from left to right, duplicates kept;
    an unmatched or nested bracket is a [PatternSyntaxError]. *)
Fixpoint tokens (s : string) (cur : option string) : result (list string) :=
  match s with
  | EmptyString =>
      match cur with
      | None => Ok []
      | Some _ => Err PatternSyntaxError
      end
  | String c r =>
      match cur with
      | None =>
          if Ascii.eqb c "[" then tokens r (Some EmptyString)
          else if Ascii.eqb c "]" then Err PatternSyntaxError
          else tokens r None
      | Some t =>
          if Ascii.eqb c "]" then (ts <- tokens r None ;; Ok (t :: ts))
          else if Ascii.eqb c "[" then Err PatternSyntaxError
          else tokens r (Some (String.append t (String c EmptyString)))
      end
  end.

(** A token's path segments: the token split on [.]. *)
Fixpoint split_dot (s : string) (cur : string) : list string :=
  match s with
  | EmptyString => [cur]
  | String c r =>
      if Ascii.eqb c "." then cur :: split_dot r EmptyString
      else split_dot r (String.append cur (String c EmptyString))
  end.

(** Modelled from the spec: [fieldsFromPattern] of §4.2. A one-segment
    token is a top-level field, kept unless a relation filter is given; a
    one-segment token equal to the filtered relation has no sub-field and
    is a [PatternSyntaxError]. A token of two or more segments is kept
    whole when neither filter is set, and gives its remainder (re-joined on
    [.]) when its first segment is the filtered relation. The result is a
    set. *)
Fixpoint classify (ts : list (list string)) (topLevel : bool) (relation : option string)
    : result (list string) :=
  match ts with
  | [] => Ok []
  | segs :: r =>
      rest <- classify r topLevel relation ;;
      match segs, relation with
      | [x], None => Ok (x :: rest)
      | [x], Some rel => if String.eqb x rel then Err PatternSyntaxError else Ok rest
      | x :: (_ :: _) as more, None =>
          if topLevel then Ok rest else Ok (String.concat "." segs :: rest)
      | x :: (_ :: _) as more, Some rel =>
          if String.eqb x rel then Ok (String.concat "." more :: rest) else Ok rest
      | [], _ => Ok rest
      end
  end.

Definition fieldsFromPattern (p : string) (topLevel : bool) (relation : option string)
    : result (list string) :=
  ts <- tokens p None ;;
  fs <- classify (map (fun t => split_dot t EmptyString) ts) topLevel relation ;;
  Ok (new_Set fs).

(** Modelled from the spec: [relationsFromPattern] of §4.2, the set of first
    segments of the multi-segment tokens. *)
Definition relationsFromPattern (p : string) : result (list string) :=
  ts <- tokens p None ;;
  Ok (new_Set (flat_map (fun t => match split_dot t EmptyString with
                                   | x :: _ :: _ => [x]
                                   | _ => []
                                   end) ts)).

Definition service : PatternService :=
  {| getFieldsFromPattern := fieldsFromPattern;
     getRelationsFromPattern := relationsFromPattern |}.

End SpecPattern.

(** The example configuration of §8 of the spec. *)
Definition example_config : ContentTypeConfig :=
  {| languages := Some [("en", {| pattern := "/posts/[title]" |});
                        ("fr", {| pattern := "/articles/[titre]/[category.name]" |})] |}.

(** An entry [relation: { fields }] of the relation map holds the field list
    scoped to its key, and its key satisfies [Q]. *)
Definition relation_entry_ok (svc : PatternService) (contentType : option ContentTypeConfig)
    (Q : string -> Prop) (k : string) (v : RelationFields) : Prop :=
  getFieldsFromConfig svc contentType false false (Some k) = Ok (rel_fields v) /\ Q k.

(** A configuration whose pattern itself uses a [locale] placeholder. *)
Definition locale_config : ContentTypeConfig :=
  {| languages := Some [("en", {| pattern := "/[locale]/[title]" |})] |}.

(** Two languages that both reference [title]. *)
Definition shared_field_config : ContentTypeConfig :=
  {| languages := Some [("en", {| pattern := "/posts/[title]" |});
                        ("nl", {| pattern := "/berichten/[title]" |})] |}.

(** A page content type registered under [page_uid]. *)
Definition page_uid : string := "api::page.page".

Definition page_config (ct : ContentTypeConfig) (excl : option bool) : Config :=
  {| excludeDrafts := excl; contentTypes := [(page_uid, ct)] |}.

Definition page_schema (opts : option ContentTypeOptions) (loc : option bool)
    : ContentTypeSchema :=
  {| options := opts;
     pluginOptions := Some {| i18n := Some {| localized := loc |} |} |}.

(** A pattern that reaches the [localizations] relation itself. *)
Definition localizations_config : ContentTypeConfig :=
  {| languages := Some [("en", {| pattern := "/[localizations.slug]/[title]" |})] |}.

(** A cache table holding two rows named [default] (e.g. after two
    overlapping [createSitemapCache] calls). *)
Definition two_caches_store : Store :=
  {| sitemaps := [];
     sitemap_caches := [{| smc_id := 1; sitemap_json := "{}"; smc_name := "default" |};
                        {| smc_id := 2; sitemap_json := "{}"; smc_name := "default" |}];
     next_sitemap_id := 1;
     next_cache_id := 3 |}.

(** A cache table holding one row of each of two names. *)
Definition one_cache_store : Store :=
  {| sitemaps := [];
     sitemap_caches := [{| smc_id := 1; sitemap_json := "{}"; smc_name := "default" |};
                        {| smc_id := 2; sitemap_json := "{}"; smc_name := "other" |}];
     next_sitemap_id := 1;
     next_cache_id := 3 |}.

(** Sitemaps of two names over several deltas. *)
Definition sitemaps_store : Store :=
  {| sitemaps := [{| sm_id := 1; sitemap_string := "a0"; sm_name := "default"; delta := 0 |};
                  {| sm_id := 2; sitemap_string := "b0"; sm_name := "other"; delta := 0 |};
                  {| sm_id := 3; sitemap_string := "a1"; sm_name := "default"; delta := 1 |}];
     sitemap_caches := [];
     next_sitemap_id := 4;
     next_cache_id := 1 |}.

Example example_fields :
  getFieldsFromConfig SpecPattern.service (Some example_config) true true None
  = Ok ["title"; "titre"; "locale"; "updatedAt"].
Proof. reflexivity. Qed.

Example example_relations :
  getRelationsFromConfig SpecPattern.service (Some example_config)
  = Ok [("category", {| rel_fields := ["name"] |})].
Proof. reflexivity. Qed.

Example example_syntax_error :
  SpecPattern.fieldsFromPattern "/p/[category" false None = Err PatternSyntaxError.
Proof. reflexivity. Qed.

(** ** Lemmas on the JS helpers *)

Lemma mem_In x l : mem x l = true <-> In x l.
Proof.
  unfold mem; rewrite existsb_exists; split.
  - intros [y [Hy E]]. apply String.eqb_eq in E; subst; assumption.
  - intros H; exists x; split; [assumption | apply String.eqb_refl].
Qed.

Lemma set_add_all_NoDup acc xs : NoDup acc -> NoDup (set_add_all acc xs).
Proof.
  revert acc; induction xs as [|x r IH]; intros acc Hacc; simpl; [assumption|].
  destruct (mem x acc) eqn:Hm; apply IH; [assumption|].
  apply NoDup_app; [assumption | constructor; [intros [] | constructor] |].
  intros a Ha [->|[]]. apply (proj2 (mem_In a acc)) in Ha. congruence.
Qed.

Lemma set_add_all_In acc xs x : In x (set_add_all acc xs) <-> In x acc \/ In x xs.
Proof.
  revert acc; induction xs as [|y r IH]; intros acc; simpl.
  - tauto.
  - destruct (mem y acc) eqn:Hm.
    + rewrite IH. apply mem_In in Hm. split; [tauto|].
      intros [H|[<-|H]]; tauto.
    + rewrite IH, in_app_iff. simpl. tauto.
Qed.

Lemma new_Set_NoDup xs : NoDup (new_Set xs).
Proof. apply set_add_all_NoDup; constructor. Qed.

Lemma new_Set_In xs x : In x (new_Set xs) <-> In x xs.
Proof. unfold new_Set; rewrite set_add_all_In; simpl; tauto. Qed.

Lemma getFieldsFromConfig_inv svc ct tl il rel fs :
  getFieldsFromConfig svc ct tl il rel = Ok fs ->
  exists pf,
    (ct = None /\ pf = [] \/
     exists c langs, ct = Some c /\ languages c = Some langs /\
                     push_fields svc langs tl rel [] = Ok pf) /\
    fs = new_Set (if tl then (if il then pf ++ ["locale"] else pf) ++ ["updatedAt"] else pf).
Proof.
  unfold getFieldsFromConfig.
  destruct ct as [c|].
  - destruct (languages c) as [langs|] eqn:Hl; simpl; [|discriminate].
    destruct (push_fields svc langs tl rel []) as [pf|e] eqn:Hp; simpl; [|discriminate].
    intros H; inversion H; subst. exists pf; split; [right; exists c, langs; auto | reflexivity].
  - simpl. intros H; inversion H; subst. exists []; split; [left; auto | reflexivity].
Qed.

(** ** Claims about [getFieldsFromConfig] *)

(** C1 (amended): with [topLevel] true, a returned field list is the
    first-occurrence deduplication of the per-language pattern fields
    followed by [locale] (when [isLocalized]) and [updatedAt]. It always
    contains [updatedAt], contains [locale] when [isLocalized] is true, and
    when [isLocalized] is false contains [locale] exactly when a pattern
    yields it. *)
Theorem getFieldsFromConfig_topLevel_meta svc ct il rel fs :
  getFieldsFromConfig svc ct true il rel = Ok fs ->
  exists pf,
    (ct = None /\ pf = [] \/
     exists c langs, ct = Some c /\ languages c = Some langs /\
                     push_fields svc langs true rel [] = Ok pf) /\
    fs = new_Set (pf ++ (if il then ["locale"] else []) ++ ["updatedAt"]) /\
    In "updatedAt" fs /\
    (il = true -> In "locale" fs) /\
    (In "locale" fs <-> il = true \/ In "locale" pf).
Proof.
  intros H. apply getFieldsFromConfig_inv in H as [pf [Hpf ->]].
  exists pf. rewrite !new_Set_In.
  assert (E : (if il then pf ++ ["locale"] else pf) ++ ["updatedAt"]
              = pf ++ (if il then ["locale"] else []) ++ ["updatedAt"])
    by (destruct il; simpl; [rewrite <- app_assoc|]; reflexivity).
  rewrite E. split; [assumption|]. split; [reflexivity|]. split; [|split].
  - rewrite !in_app_iff; simpl; tauto.
  - intros ->; rewrite !in_app_iff; simpl; tauto.
  - rewrite !in_app_iff. destruct il; simpl; intuition congruence.
Qed.

Lemma getFieldsFromConfig_topLevel_meta_witness :
  getFieldsFromConfig SpecPattern.service (Some example_config) true true None
  = Ok ["title"; "titre"; "locale"; "updatedAt"] /\
  In "locale" ["title"; "titre"; "locale"; "updatedAt"].
Proof.
  split; [reflexivity|].
  destruct (getFieldsFromConfig_topLevel_meta SpecPattern.service (Some example_config) true None
              ["title"; "titre"; "locale"; "updatedAt"] eq_refl)
    as [pf [_ [_ [_ [Hl _]]]]].
  exact (Hl eq_refl).
Defined.

(** C1 (counterexample): a pattern with a [[locale]] placeholder puts
    [locale] in the top-level fields although [isLocalized] is false. *)
Lemma getFieldsFromConfig_locale_without_isLocalized :
  getFieldsFromConfig SpecPattern.service (Some locale_config) true false None
  = Ok ["locale"; "title"; "updatedAt"] /\ In "locale" ["locale"; "title"; "updatedAt"].
Proof. split; [reflexivity | left; reflexivity]. Qed.

(** C2: a field list returned by [getFieldsFromConfig] never repeats a
    value, for any arguments and any pattern service. *)
Theorem getFieldsFromConfig_NoDup svc ct tl il rel fs :
  getFieldsFromConfig svc ct tl il rel = Ok fs -> NoDup fs.
Proof.
  intros H. apply getFieldsFromConfig_inv in H as [pf [_ ->]]. apply new_Set_NoDup.
Qed.

Lemma getFieldsFromConfig_NoDup_witness :
  getFieldsFromConfig SpecPattern.service (Some shared_field_config) false false None
  = Ok ["title"] /\ NoDup ["title"].
Proof.
  split; [reflexivity|].
  apply (getFieldsFromConfig_NoDup SpecPattern.service (Some shared_field_config)
           false false None). reflexivity.
Defined.

(** C4 (amended): an absent configuration, or one whose [languages]
    mapping is empty, gives no pattern field and no error: the result is
    [[]] when [topLevel] is false and only the appended [locale] /
    [updatedAt] otherwise. A present configuration without a [languages]
    key makes [Object.entries] throw a [TypeError]. *)
Theorem getFieldsFromConfig_no_languages svc ct tl il rel :
  ct = None \/ (exists c, ct = Some c /\ languages c = Some []) ->
  getFieldsFromConfig svc ct tl il rel
  = Ok (if tl then (if il then ["locale"] else []) ++ ["updatedAt"] else []) /\
  (forall c, languages c = None -> getFieldsFromConfig svc (Some c) tl il rel = Err TypeError).
Proof.
  intros H. split.
  - destruct H as [->|[c [-> Hc]]]; unfold getFieldsFromConfig;
      [|rewrite Hc]; destruct tl, il; reflexivity.
  - intros c Hc. unfold getFieldsFromConfig. rewrite Hc. reflexivity.
Qed.

Lemma getFieldsFromConfig_no_languages_witness :
  getFieldsFromConfig SpecPattern.service None true true None = Ok ["locale"; "updatedAt"].
Proof.
  apply (proj1 (getFieldsFromConfig_no_languages SpecPattern.service None true true None
                  (or_introl eq_refl))).
Defined.

(** C4 (counterexample): a configuration object without [languages]. *)
Lemma getFieldsFromConfig_missing_languages_throws :
  getFieldsFromConfig SpecPattern.service (Some {| languages := None |}) false false None
  = Err TypeError.
Proof. reflexivity. Qed.

(** ** Claims about [getRelationsFromConfig] *)

Lemma obj_set_In {V} (o : obj V) k v p :
  In p (obj_set o k v) -> p = (k, v) \/ In p o.
Proof.
  induction o as [|[k' v'] r IH]; simpl; intros H.
  - destruct H as [<-|[]]. left; reflexivity.
  - destruct (String.eqb k k') eqn:E.
    + apply String.eqb_eq in E; subst.
      destruct H as [H|H]; [left; congruence | right; right; assumption].
    + destruct H as [<-|H]; [right; left; reflexivity|].
      apply IH in H as [H|H]; [left | right; right]; assumption.
Qed.

Section RelationsInvariant.

Variable svc : PatternService.
Variable contentType : option ContentTypeConfig.

(** What every relation key must satisfy besides its field list. *)
Variable Q : string -> Prop.

Lemma set_relations_inv rels o o' :
  set_relations svc contentType rels o = Ok o' ->
  (forall r, In r rels -> Q r) ->
  (forall k v, In (k, v) o -> relation_entry_ok svc contentType Q k v) ->
  forall k v, In (k, v) o' -> relation_entry_ok svc contentType Q k v.
Proof.
  revert o; induction rels as [|r rs IH]; intros o H HQ Ho; simpl in H.
  - inversion H; subst; assumption.
  - destruct (getFieldsFromConfig svc contentType false false (Some r)) as [fs|e] eqn:Hf;
      simpl in H; [|discriminate].
    apply (IH _ H); [intros x Hx; apply HQ; right; assumption|].
    intros k v Hin. apply obj_set_In in Hin as [E|Hin].
    + inversion E; subst. split; [assumption | apply HQ; left; reflexivity].
    + apply Ho; assumption.
Qed.

Lemma relations_of_languages_inv langs o o' :
  relations_of_languages svc contentType langs o = Ok o' ->
  (forall lc l rels r, In (lc, l) langs -> getRelationsFromPattern svc (pattern l) = Ok rels ->
                       In r rels -> Q r) ->
  (forall k v, In (k, v) o -> relation_entry_ok svc contentType Q k v) ->
  forall k v, In (k, v) o' -> relation_entry_ok svc contentType Q k v.
Proof.
  revert o; induction langs as [|[lc l] r IH]; intros o H HQ Ho; simpl in H.
  - inversion H; subst; assumption.
  - destruct (getRelationsFromPattern svc (pattern l)) as [rels|e] eqn:Hr;
      simpl in H; [|discriminate].
    destruct (set_relations svc contentType rels o) as [o1|e] eqn:Hs;
      simpl in H; [|discriminate].
    apply (IH o1 H).
    + intros lc' l' rels' x Hin; apply (HQ lc' l' rels' x); right; assumption.
    + apply (set_relations_inv rels o); [assumption| |assumption].
      intros x Hx; apply (HQ lc l rels x); [left; reflexivity | assumption | assumption].
Qed.

End RelationsInvariant.

(** C3: every entry [relation: { fields }] of the relation map holds the
    field list of [getFieldsFromConfig] scoped to that relation, which runs
    the extraction over every language's pattern; and every key is a
    relation that the pattern service found in some language's pattern. *)
Theorem getRelationsFromConfig_entries svc ct o :
  getRelationsFromConfig svc ct = Ok o ->
  forall k v, In (k, v) o ->
    getFieldsFromConfig svc ct false false (Some k) = Ok (rel_fields v) /\
    exists c langs lc l rels,
      ct = Some c /\ languages c = Some langs /\ In (lc, l) langs /\
      getRelationsFromPattern svc (pattern l) = Ok rels /\ In k rels.
Proof.
  unfold getRelationsFromConfig. destruct ct as [c|]; [|intros H; inversion H; subst; intros _ _ []].
  destruct (languages c) as [langs|] eqn:Hl; [|discriminate].
  intros H k v Hin.
  apply (relations_of_languages_inv svc (Some c)
           (fun k => exists lc l rels, In (lc, l) langs /\
                       getRelationsFromPattern svc (pattern l) = Ok rels /\ In k rels)
           langs [] o H) in Hin as [Hf [lc [l [rels [H1 [H2 H3]]]]]].
  - split; [assumption|]. exists c, langs, lc, l, rels. auto.
  - intros lc l rels r H1 H2 H3. exists lc, l, rels. auto.
  - intros k' v' [].
Qed.

Lemma getRelationsFromConfig_entries_witness :
  getFieldsFromConfig SpecPattern.service (Some example_config) false false (Some "category")
  = Ok ["name"].
Proof.
  apply (proj1 (getRelationsFromConfig_entries SpecPattern.service (Some example_config)
                  [("category", {| rel_fields := ["name"] |})] eq_refl
                  "category" {| rel_fields := ["name"] |} (or_introl eq_refl))).
Defined.

(** ** Claims about [getPages] *)

Lemma cond_null_true v : cond_holds v (CNull true) = true <-> v = VNull.
Proof. destruct v; simpl; split; congruence. Qed.

Lemma cond_eq_false v : cond_holds v (CEq (VBool false)) = true <-> v = VBool false.
Proof. destruct v as [|[]| |]; simpl; split; congruence. Qed.

Lemma cond_id v id :
  cond_holds v (if truthy_num id then CEq (VNum (match id with Some z => z | None => 0 end))
                else CEmpty) = true
  <-> (forall z, id = Some z -> z <> 0 -> v = VNum z).
Proof.
  destruct id as [z|]; simpl.
  - destruct (Z.eqb_spec z 0) as [Hz|Hz]; simpl.
    + split; [intros _ z' E; inversion E; subst; contradiction | reflexivity].
    + split.
      * intros H z' E _; inversion E; subst. destruct v; simpl in H; try discriminate.
        apply Z.eqb_eq in H; subst; reflexivity.
      * intros H. rewrite (H z eq_refl Hz). simpl. apply Z.eqb_refl.
  - split; [intros _ z E; discriminate | reflexivity].
Qed.

Lemma cond_published v (exd : bool) :
  cond_holds v (if exd then CNotNull true else CEmpty) = true
  <-> (exd = true -> v <> VNull).
Proof. destruct exd, v; simpl; split; intros; try congruence; try reflexivity; firstorder. Qed.

Lemma pageFilters_holds e id exd :
  filter_holds e (pageFilters id exd) = true <->
  (field_value e "sitemap_exclude" = VNull \/ field_value e "sitemap_exclude" = VBool false) /\
  (forall z, id = Some z -> z <> 0 -> field_value e "id" = VNum z) /\
  (exd = true -> field_value e "published_at" <> VNull).
Proof.
  unfold pageFilters; cbn [filter_holds existsb forallb].
  rewrite orb_false_r, andb_true_r, !andb_true_iff, orb_true_iff,
    cond_null_true, cond_eq_false, cond_id, cond_published.
  tauto.
Qed.

(** C5 (amended): the [where]/[filters] object of the page query accepts
    an entry exactly when its [sitemap_exclude] is null or false, its [id]
    equals the [id] argument when that argument is truthy (a nonzero number),
    and its [published_at] is non-null when [excludeDrafts] is truthy and
    the content type has [draftAndPublish] set. *)
Theorem getPagesQuery_filters svc sct config uid id q :
  getPagesQuery svc sct config uid id = Ok q ->
  fs_where q = fs_filters q /\
  forall e, filter_holds e (fs_filters q) = true <->
    (field_value e "sitemap_exclude" = VNull \/ field_value e "sitemap_exclude" = VBool false) /\
    (forall z, id = Some z -> z <> 0 -> field_value e "id" = VNum z) /\
    ((exists m o, truthy (excludeDrafts config) = true /\ obj_get sct uid = Some m /\
                  options m = Some o /\ truthy (draftAndPublish o) = true) ->
     field_value e "published_at" <> VNull).
Proof.
  unfold getPagesQuery.
  destruct (truthy (excludeDrafts config)) eqn:Hx;
    destruct (obj_get sct uid) as [m|] eqn:Hm; cbn [bind]; try discriminate;
    [destruct (options m) as [o|] eqn:Ho; cbn [bind]; [|discriminate]|];
    destruct (getRelationsFromConfig svc (obj_get (contentTypes config) uid)); cbn [bind];
      try discriminate;
    destruct (getFieldsFromConfig svc _ true _ None); cbn [bind]; try discriminate;
    intros H; inversion H; subst; cbn [fs_where fs_filters]; (split; [reflexivity|]);
    intros e; rewrite pageFilters_holds.
  - split; intros [H1 [H2 H3]]; (split; [assumption | split; [assumption|]]).
    + intros [m' [o' [_ [Hm' [Ho' Hd]]]]]. inversion Hm'; subst. rewrite Ho in Ho'.
      inversion Ho'; subst. auto.
    + intros Hd. apply H3. exists m, o. auto.
  - split; intros [H1 [H2 H3]]; (split; [assumption | split; [assumption|]]).
    + intros [m' [o' [Hx' _]]]. discriminate.
    + discriminate.
Qed.

Lemma getPagesQuery_filters_witness :
  exists q, getPagesQuery SpecPattern.service [(page_uid, page_schema None None)]
              (page_config example_config None) page_uid (Some 42) = Ok q /\
            fs_where q = fs_filters q /\
            filter_holds [("id", VNum 42)] (fs_filters q) = true.
Proof.
  destruct (getPagesQuery_filters SpecPattern.service [(page_uid, page_schema None None)]
              (page_config example_config None) page_uid (Some 42) _ eq_refl) as [Hw Hf].
  eexists; split; [reflexivity|]. split; [exact Hw|].
  apply Hf. split; [left; reflexivity|]. split.
  - intros z E _; inversion E; reflexivity.
  - intros [m [o [Hx _]]]; discriminate.
Defined.

(** C5 (counterexample): an [id] of [0] is falsy, so no [id] clause is
    built and an entry with [id] 5 passes the filter. *)
Lemma getPagesQuery_id_zero_unfiltered :
  exists q, getPagesQuery SpecPattern.service [(page_uid, page_schema None None)]
              (page_config example_config None) page_uid (Some 0) = Ok q /\
            filter_holds [("id", VNum 5)] (fs_filters q) = true.
Proof. eexists; split; reflexivity. Qed.

Lemma obj_get_set {V} (o : obj V) k v k' :
  obj_get (obj_set o k v) k' = if String.eqb k' k then Some v else obj_get o k'.
Proof.
  induction o as [|[k0 v0] r IH]; simpl; [reflexivity|].
  destruct (String.eqb k k0) eqn:E.
  - apply String.eqb_eq in E; subst. simpl. destruct (String.eqb k' k0); reflexivity.
  - simpl. rewrite IH.
    destruct (String.eqb k' k0) eqn:E1, (String.eqb k' k) eqn:E2; try reflexivity.
    apply String.eqb_eq in E1, E2; subst. rewrite String.eqb_refl in E. discriminate.
Qed.

Lemma obj_get_set_same {V} (o : obj V) k v : obj_get (obj_set o k v) k = Some v.
Proof. rewrite obj_get_set, String.eqb_refl. reflexivity. Qed.

(** C6: where [getPages] reads a missing flag of the runtime metadata as
    false, and where it does not. A [draftAndPublish] missing from a
    present [options] object, or an [i18n.localized] flag missing at any
    level of the optional chain [pluginOptions?.i18n?.localized], gives the
    same result (the same fetch specification or the same error) as the
    flag set to [false]; so does an absent [options] object while
    [excludeDrafts] is falsy. When [excludeDrafts] is truthy, an absent
    [options] object makes the plain property access
    [options.draftAndPublish] (line 78, no optional chaining) throw a
    [TypeError] instead of reading as false. *)
Theorem getPagesQuery_missing_flags svc sct config uid id m :
  obj_get sct uid = Some m ->
  (forall o, options m = Some o -> draftAndPublish o = None ->
     getPagesQuery svc sct config uid id
     = getPagesQuery svc (obj_set sct uid {| options := Some {| draftAndPublish := Some false |};
                                            pluginOptions := pluginOptions m |})
                     config uid id) /\
  (i18n_localized m = None ->
     getPagesQuery svc sct config uid id
     = getPagesQuery svc (obj_set sct uid
                            {| options := options m;
                               pluginOptions := Some {| i18n := Some {| localized := Some false |} |} |})
                     config uid id) /\
  (options m = None -> truthy (excludeDrafts config) = false ->
     getPagesQuery svc sct config uid id
     = getPagesQuery svc (obj_set sct uid {| options := Some {| draftAndPublish := Some false |};
                                            pluginOptions := pluginOptions m |})
                     config uid id) /\
  (options m = None -> truthy (excludeDrafts config) = true ->
     getPagesQuery svc sct config uid id = Err TypeError).
Proof.
  intros Hm. unfold getPagesQuery. rewrite !obj_get_set_same, Hm.
  split; [|split; [|split]].
  - intros o Ho Hd. rewrite Ho, Hd. destruct (truthy (excludeDrafts config)); reflexivity.
  - intros Hl. rewrite Hl. reflexivity.
  - intros Ho Hx. rewrite Hx. reflexivity.
  - intros Ho Hx. rewrite Hx, Ho. reflexivity.
Qed.

Lemma getPagesQuery_missing_flags_witness :
  getPagesQuery SpecPattern.service
    [(page_uid, page_schema (Some {| draftAndPublish := None |}) None)]
    (page_config example_config (Some true)) page_uid None
  = getPagesQuery SpecPattern.service
      (obj_set [(page_uid, page_schema (Some {| draftAndPublish := None |}) None)] page_uid
         {| options := Some {| draftAndPublish := Some false |};
            pluginOptions := pluginOptions (page_schema (Some {| draftAndPublish := None |}) None) |})
      (page_config example_config (Some true)) page_uid None.
Proof.
  apply (proj1 (getPagesQuery_missing_flags SpecPattern.service
                  [(page_uid, page_schema (Some {| draftAndPublish := None |}) None)]
                  (page_config example_config (Some true)) page_uid None
                  (page_schema (Some {| draftAndPublish := None |}) None) eq_refl)
           {| draftAndPublish := None |} eq_refl eq_refl).
Defined.

(** C6 (failing input): [excludeDrafts] on and no [options] object on the
    content type: [strapi.contentTypes[uid].options.draftAndPublish]
    throws, where a missing flag should read as false. *)
Lemma getPagesQuery_no_options_throws :
  getPagesQuery SpecPattern.service [(page_uid, page_schema None None)]
    (page_config example_config (Some true)) page_uid None = Err TypeError.
Proof. reflexivity. Qed.

Lemma obj_get_none {V} (o : obj V) k : ~ In k (map fst o) -> obj_get o k = None.
Proof.
  induction o as [|[k0 v0] r IH]; simpl; intros H; [reflexivity|].
  destruct (String.eqb k k0) eqn:E.
  - apply String.eqb_eq in E; subst. exfalso; apply H; left; reflexivity.
  - apply IH. intros Hin; apply H; right; assumption.
Qed.

Lemma obj_set_keys_NoDup {V} (o : obj V) k v :
  NoDup (map fst o) -> NoDup (map fst (obj_set o k v)).
Proof.
  induction o as [|[k0 v0] r IH]; simpl; intros Hnd.
  - constructor; [intros []|constructor].
  - inversion Hnd as [|? ? Hn Hr]; subst.
    destruct (String.eqb k k0) eqn:E; simpl; constructor; auto.
    intros Hin. apply in_map_iff in Hin as [[k1 v1] [E1 Hin]]. simpl in E1.
    apply String.eqb_neq in E.
    apply obj_set_In in Hin as [E2|Hin].
    + inversion E2; subst. congruence.
    + apply Hn. apply in_map_iff. exists (k1, v1). auto.
Qed.

Lemma obj_get_spread {V} (a b : obj V) k :
  NoDup (map fst b) ->
  obj_get (obj_spread a b) k = match obj_get b k with Some v => Some v | None => obj_get a k end.
Proof.
  unfold obj_spread. revert a; induction b as [|[k' v'] r IH]; intros a Hnd; simpl;
    [reflexivity|].
  inversion Hnd as [|? ? Hn Hr]; subst.
  rewrite IH by assumption. rewrite obj_get_set.
  destruct (String.eqb k k') eqn:E.
  - apply String.eqb_eq in E; subst. rewrite obj_get_none by assumption. reflexivity.
  - reflexivity.
Qed.

Lemma set_relations_keys svc ct rels o o' :
  set_relations svc ct rels o = Ok o' -> NoDup (map fst o) -> NoDup (map fst o').
Proof.
  revert o; induction rels as [|r rs IH]; intros o H Hnd; simpl in H.
  - inversion H; subst; assumption.
  - destruct (getFieldsFromConfig svc ct false false (Some r)); simpl in H; [|discriminate].
    apply (IH _ H). apply obj_set_keys_NoDup; assumption.
Qed.

Lemma relations_of_languages_keys svc ct langs o o' :
  relations_of_languages svc ct langs o = Ok o' -> NoDup (map fst o) -> NoDup (map fst o').
Proof.
  revert o; induction langs as [|[lc l] r IH]; intros o H Hnd; simpl in H.
  - inversion H; subst; assumption.
  - destruct (getRelationsFromPattern svc (pattern l)) as [rels|]; simpl in H; [|discriminate].
    destruct (set_relations svc ct rels o) as [o1|] eqn:Hs; simpl in H; [|discriminate].
    apply (IH _ H). apply (set_relations_keys svc ct rels o); assumption.
Qed.

(** The relation map has one entry per key. *)
Lemma getRelationsFromConfig_keys svc ct o :
  getRelationsFromConfig svc ct = Ok o -> NoDup (map fst o).
Proof.
  unfold getRelationsFromConfig. destruct ct as [c|].
  - destruct (languages c); [|discriminate].
    intros H; apply (relations_of_languages_keys _ _ _ _ _ H); constructor.
  - intros H; inversion H; subst; constructor.
Qed.

Lemma pagePopulate_get fields relations k :
  NoDup (map fst relations) ->
  obj_get (pagePopulate fields relations) k
  = match obj_get relations k with
    | Some v => Some (PopRelation v)
    | None => if String.eqb k "localizations"
              then Some (PopLocalizations fields relations) else None
    end.
Proof.
  intros Hnd. unfold pagePopulate. rewrite obj_get_spread.
  - assert (E : obj_get (map (fun kv => (fst kv, PopRelation (snd kv))) relations) k
                = option_map PopRelation (obj_get relations k)).
    { induction relations as [|[k0 v0] r IH]; simpl; [reflexivity|].
      destruct (String.eqb k k0); [reflexivity|].
      apply IH. inversion Hnd; assumption. }
    rewrite E. destruct (obj_get relations k); reflexivity.
  - rewrite map_map. simpl. exact Hnd.
Qed.

(** C7 (amended): a page query asks for all locales, ordered by [id],
    with the fields of [getFieldsFromConfig] at [topLevel] true (localized
    as the metadata says). Its populate object holds, for every relation of
    the relation map, that relation's [{ fields }]; and, when the relation
    map has no [localizations] key, a [localizations] entry with the same
    fields and the whole relation map. The relations are spread after the
    [localizations] entry, so a relation named [localizations] replaces
    it. *)
Theorem getPagesQuery_fetchSpec svc sct config uid id q :
  getPagesQuery svc sct config uid id = Ok q ->
  fs_locale q = "all" /\ fs_orderBy q = "id" /\
  exists m relations,
    obj_get sct uid = Some m /\
    getRelationsFromConfig svc (obj_get (contentTypes config) uid) = Ok relations /\
    getFieldsFromConfig svc (obj_get (contentTypes config) uid) true
      (truthy (i18n_localized m)) None = Ok (fs_fields q) /\
    (forall k v, obj_get relations k = Some v -> obj_get (fs_populate q) k = Some (PopRelation v)) /\
    (obj_get relations "localizations" = None ->
     obj_get (fs_populate q) "localizations" = Some (PopLocalizations (fs_fields q) relations)).
Proof.
  unfold getPagesQuery.
  destruct (truthy (excludeDrafts config)) eqn:Hx;
    destruct (obj_get sct uid) as [m|] eqn:Hm; cbn [bind]; try discriminate;
    [destruct (options m) as [o|] eqn:Ho; cbn [bind]; [|discriminate]|];
    destruct (getRelationsFromConfig svc (obj_get (contentTypes config) uid))
      as [relations|] eqn:Hr; cbn [bind]; try discriminate;
    destruct (getFieldsFromConfig svc _ true _ None) as [fields|] eqn:Hf; cbn [bind];
      try discriminate;
    intros H; inversion H; subst; cbn [fs_locale fs_orderBy fs_fields fs_populate];
    (split; [reflexivity|]); (split; [reflexivity|]);
    exists m, relations; (split; [reflexivity|]); (split; [reflexivity|]);
    (split; [assumption|]);
    pose proof (getRelationsFromConfig_keys _ _ _ Hr) as Hnd;
    (split; [intros k v Hk; rewrite pagePopulate_get, Hk by assumption; reflexivity|]);
    intros Hl; rewrite pagePopulate_get, Hl by assumption; reflexivity.
Qed.

Lemma getPagesQuery_fetchSpec_witness :
  exists q, getPagesQuery SpecPattern.service [(page_uid, page_schema None (Some true))]
              (page_config example_config None) page_uid None = Ok q /\
            obj_get (fs_populate q) "category" = Some (PopRelation {| rel_fields := ["name"] |}).
Proof.
  destruct (getPagesQuery_fetchSpec SpecPattern.service [(page_uid, page_schema None (Some true))]
              (page_config example_config None) page_uid None _ eq_refl)
    as [_ [_ [m [relations [_ [Hr [_ [Hp _]]]]]]]].
  eexists; split; [reflexivity|].
  apply Hp. vm_compute in Hr. inversion Hr; subst. reflexivity.
Defined.

(** C7 (counterexample): a pattern placeholder [[localizations.slug]] puts
    a relation named [localizations] in the map; spread last, it replaces
    the mirrored [localizations] entry. *)
Lemma getPagesQuery_localizations_overridden :
  exists q, getPagesQuery SpecPattern.service [(page_uid, page_schema None (Some true))]
              (page_config localizations_config None) page_uid None = Ok q /\
            obj_get (fs_populate q) "localizations"
            = Some (PopRelation {| rel_fields := ["slug"] |}).
Proof. eexists; split; reflexivity. Qed.

(** ** Claims about the persistence helpers *)

Lemma filter_nil_of {A} (p : A -> bool) l :
  (forall x, In x l -> p x = false) -> filter p l = [].
Proof.
  induction l as [|x r IH]; simpl; intros H; [reflexivity|].
  rewrite (H x (or_introl eq_refl)). apply IH. intros y Hy; apply H; right; assumption.
Qed.

(** Deleting the primary key of the only row matching [p] leaves none. *)
Lemma filter_after_delete {A} (p : A -> bool) (key : A -> Z) l r :
  filter p l = [r] -> filter p (filter (fun x => negb (Z.eqb (key x) (key r))) l) = [].
Proof.
  intros Hf. apply filter_nil_of. intros x Hx.
  apply filter_In in Hx as [Hx Hk].
  destruct (p x) eqn:Hp; [|reflexivity].
  assert (Hin : In x (filter p l)) by (apply filter_In; auto).
  rewrite Hf in Hin. destruct Hin as [<-|[]].
  rewrite Z.eqb_refl in Hk. discriminate.
Qed.

Lemma createSitemapCache_one s json name :
  (length (findMany_cache s name) <= 1)%nat ->
  length (findMany_cache (createSitemapCache s json name) name) = 1%nat.
Proof.
  unfold createSitemapCache, findMany_cache.
  destruct (filter _ (sitemap_caches s)) as [|r [|r' rest]] eqn:Hf; simpl; intros Hle;
    [| |lia]; unfold create_cache; simpl; rewrite filter_app; simpl;
    rewrite String.eqb_refl.
  - rewrite Hf. reflexivity.
  - rewrite (filter_after_delete _ smc_id _ r Hf). reflexivity.
Qed.

Lemma createSitemap_one s str name d :
  (length (findMany_sitemap s name (Some d)) <= 1)%nat ->
  length (findMany_sitemap (createSitemap s str name d) name (Some d)) = 1%nat.
Proof.
  unfold createSitemap, findMany_sitemap.
  destruct (filter _ (sitemaps s)) as [|r [|r' rest]] eqn:Hf; simpl; intros Hle;
    [| |lia]; unfold create_sitemap; simpl; rewrite filter_app; simpl;
    rewrite String.eqb_refl, Z.eqb_refl.
  - rewrite Hf. reflexivity.
  - rewrite (filter_after_delete _ sm_id _ r Hf). reflexivity.
Qed.

Lemma filter_all_true {A} (q : A -> bool) l :
  (forall x, In x l -> q x = true) -> filter q l = l.
Proof.
  induction l as [|x r IH]; simpl; intros H; [reflexivity|].
  rewrite (H x (or_introl eq_refl)), IH by (intros y Hy; apply H; right; assumption).
  reflexivity.
Qed.

(** With distinct primary keys, deleting the key of one row matching [p]
    removes exactly that row from the rows matching [p]. *)
Lemma filter_delete_key_count {A} (p : A -> bool) (key : A -> Z) l r :
  NoDup (map key l) -> In r l -> p r = true ->
  S (length (filter p (filter (fun x => negb (Z.eqb (key x) (key r))) l)))
  = length (filter p l).
Proof.
  induction l as [|x t IH]; simpl; intros Hnd Hin Hp; [destruct Hin|].
  inversion Hnd as [|? ? Hx Hnd']; subst.
  destruct (Z.eqb (key x) (key r)) eqn:E; simpl.
  - apply Z.eqb_eq in E.
    assert (x = r) as ->.
    { destruct Hin as [->|Hin]; [reflexivity|].
      exfalso; apply Hx. rewrite E. apply in_map; assumption. }
    rewrite Hp. simpl.
    rewrite (filter_all_true (fun x => negb (Z.eqb (key x) (key r))) t); [reflexivity|].
    intros y Hy. apply negb_true_iff, Z.eqb_neq. intros E'.
    apply Hx. rewrite <- E'. apply in_map; assumption.
  - destruct Hin as [->|Hin]; [rewrite Z.eqb_refl in E; discriminate|].
    destruct (p x); simpl; rewrite <- IH by assumption; reflexivity.
Qed.

Lemma createSitemapCache_keep s json name :
  NoDup (map smc_id (sitemap_caches s)) -> (1 <= length (findMany_cache s name))%nat ->
  length (findMany_cache (createSitemapCache s json name) name) = length (findMany_cache s name).
Proof.
  intros Hnd. unfold createSitemapCache, findMany_cache.
  destruct (filter _ (sitemap_caches s)) as [|r rest] eqn:Hf; simpl; intros Hle; [lia|].
  assert (Hin : In r (filter (fun r => String.eqb (smc_name r) name) (sitemap_caches s)))
    by (rewrite Hf; left; reflexivity).
  apply filter_In in Hin as [Hin Hp].
  pose proof (filter_delete_key_count (fun r => String.eqb (smc_name r) name) smc_id _ r Hnd Hin Hp)
    as K.
  rewrite Hf in K. simpl in K.
  unfold create_cache; simpl. rewrite filter_app, length_app; simpl.
  rewrite String.eqb_refl. simpl. lia.
Qed.

Lemma createSitemap_keep s str name d :
  NoDup (map sm_id (sitemaps s)) -> (1 <= length (findMany_sitemap s name (Some d)))%nat ->
  length (findMany_sitemap (createSitemap s str name d) name (Some d))
  = length (findMany_sitemap s name (Some d)).
Proof.
  intros Hnd. unfold createSitemap, findMany_sitemap.
  destruct (filter _ (sitemaps s)) as [|r rest] eqn:Hf; simpl; intros Hle; [lia|].
  assert (Hin : In r (filter (fun r => String.eqb (sm_name r) name && Z.eqb (delta r) d)
                        (sitemaps s)))
    by (rewrite Hf; left; reflexivity).
  apply filter_In in Hin as [Hin Hp].
  pose proof (filter_delete_key_count
                (fun r => String.eqb (sm_name r) name && Z.eqb (delta r) d) sm_id _ r Hnd Hin Hp)
    as K.
  rewrite Hf in K. simpl in K.
  unfold create_sitemap; simpl. rewrite filter_app, length_app; simpl.
  rewrite String.eqb_refl, Z.eqb_refl. simpl. lia.
Qed.

(** C8 (amended): from a store with at most one cache row of a name, two
    [createSitemapCache] calls with that name leave exactly one row of
    that name; likewise two [createSitemap] calls for a [(name, delta)]
    key with at most one row. From a store that already holds one or more
    rows of the key (primary keys distinct), each call deletes only the
    first of them and adds one, so the number of rows of the key stays the
    same: two or more rows are never brought back to one. *)
Theorem create_twice_one_record s json1 json2 str1 str2 name d :
  ((length (findMany_cache s name) <= 1)%nat ->
   length (findMany_cache (createSitemapCache (createSitemapCache s json1 name) json2 name) name)
   = 1%nat) /\
  ((length (findMany_sitemap s name (Some d)) <= 1)%nat ->
   length (findMany_sitemap (createSitemap (createSitemap s str1 name d) str2 name d)
             name (Some d)) = 1%nat) /\
  (NoDup (map smc_id (sitemap_caches s)) -> (1 <= length (findMany_cache s name))%nat ->
   length (findMany_cache (createSitemapCache s json1 name) name)
   = length (findMany_cache s name)) /\
  (NoDup (map sm_id (sitemaps s)) -> (1 <= length (findMany_sitemap s name (Some d)))%nat ->
   length (findMany_sitemap (createSitemap s str1 name d) name (Some d))
   = length (findMany_sitemap s name (Some d))).
Proof.
  split; [|split; [|split]].
  - intros Hc. apply createSitemapCache_one. rewrite createSitemapCache_one by assumption. lia.
  - intros Hs. apply createSitemap_one. rewrite createSitemap_one by assumption. lia.
  - apply createSitemapCache_keep.
  - apply createSitemap_keep.
Qed.

Lemma create_twice_one_record_witness :
  length (findMany_sitemap (createSitemap (createSitemap sitemaps_store "x" "default" 0)
                              "y" "default" 0) "default" (Some 0)) = 1%nat /\
  length (findMany_cache (createSitemapCache two_caches_store "{}" "default") "default") = 2%nat.
Proof.
  split.
  - apply (proj1 (proj2 (create_twice_one_record sitemaps_store "{}" "{}" "x" "y" "default" 0))).
    vm_compute; lia.
  - apply (proj1 (proj2 (proj2 (create_twice_one_record two_caches_store "{}" "{}" "x" "y"
                                  "default" 0)))).
    + vm_compute. repeat constructor; simpl; intuition discriminate.
    + vm_compute; lia.
Defined.

(** C8 (counterexample): [createSitemapCache] deletes only the first row
    returned by [findMany]; from two rows named [default], two calls still
    leave two. *)
Lemma createSitemapCache_twice_keeps_two :
  length (findMany_cache (createSitemapCache (createSitemapCache two_caches_store "{}" "default")
                            "{}" "default") "default") = 2%nat.
Proof. reflexivity. Qed.

(** C9: without a cache row of the name, [updateSitemapCache] leaves the
    store as it is. *)
Theorem updateSitemapCache_absent s json name :
  (forall r, In r (sitemap_caches s) -> smc_name r <> name) ->
  updateSitemapCache s json name = s.
Proof.
  intros H. unfold updateSitemapCache, findMany_cache.
  rewrite filter_nil_of; [reflexivity|].
  intros x Hx. apply String.eqb_neq, H, Hx.
Qed.

Lemma updateSitemapCache_absent_witness :
  updateSitemapCache two_caches_store "{}" "other" = two_caches_store.
Proof.
  apply updateSitemapCache_absent.
  intros r Hr. simpl in Hr.
  destruct Hr as [<-|[<-|[]]]; simpl; discriminate.
Defined.

Lemma filter_filter_and {A} (p q : A -> bool) l :
  filter p (filter q l) = filter (fun x => q x && p x) l.
Proof.
  induction l as [|x r IH]; simpl; [reflexivity|].
  destruct (q x); simpl; [destruct (p x)|]; simpl; rewrite ?IH; reflexivity.
Qed.

Lemma NoDup_map_eq {A B} (f : A -> B) l x y :
  NoDup (map f l) -> In x l -> In y l -> f x = f y -> x = y.
Proof.
  induction l as [|z r IH]; simpl; intros Hnd Hx Hy E; [contradiction|].
  inversion Hnd as [|? ? Hn Hr]; subst.
  destruct Hx as [<-|Hx], Hy as [<-|Hy]; auto.
  - exfalso; apply Hn; rewrite E; apply in_map; assumption.
  - exfalso; apply Hn; rewrite <- E; apply in_map; assumption.
Qed.

(** The deletions of [deleteSitemap], one primary key after the other. *)
Lemma fold_delete_sitemap l s :
  fold_left (fun s sm => delete_sitemap s (sm_id sm)) l s
  = {| sitemaps := filter (fun r => forallb (fun x => negb (Z.eqb (sm_id r) (sm_id x))) l)
                          (sitemaps s);
       sitemap_caches := sitemap_caches s;
       next_sitemap_id := next_sitemap_id s;
       next_cache_id := next_cache_id s |}.
Proof.
  revert s; induction l as [|x r IH]; intros s; simpl.
  - rewrite filter_true. destruct s; reflexivity.
  - rewrite IH. unfold delete_sitemap; simpl. rewrite filter_filter_and. reflexivity.
Qed.

(** C10: on a store whose sitemap primary keys are distinct,
    [deleteSitemap] removes exactly the sitemap rows of the given name,
    whatever their delta, and leaves every other row, the cache table and
    the key counters as they are. *)
Theorem deleteSitemap_removes_name s name :
  NoDup (map sm_id (sitemaps s)) ->
  deleteSitemap s name
  = {| sitemaps := filter (fun r => negb (String.eqb (sm_name r) name)) (sitemaps s);
       sitemap_caches := sitemap_caches s;
       next_sitemap_id := next_sitemap_id s;
       next_cache_id := next_cache_id s |} /\
  findMany_sitemap (deleteSitemap s name) name None = [].
Proof.
  intros Hnd.
  assert (E : deleteSitemap s name
              = {| sitemaps := filter (fun r => negb (String.eqb (sm_name r) name)) (sitemaps s);
                   sitemap_caches := sitemap_caches s;
                   next_sitemap_id := next_sitemap_id s;
                   next_cache_id := next_cache_id s |}).
  { unfold deleteSitemap. rewrite fold_delete_sitemap. f_equal.
    apply filter_ext_in. intros r Hr.
    unfold findMany_sitemap.
    destruct (String.eqb (sm_name r) name) eqn:En; simpl.
    - destruct (forallb _ _) eqn:Fa; [|reflexivity].
      rewrite forallb_forall in Fa.
      specialize (Fa r). rewrite filter_In, En, Z.eqb_refl in Fa.
      simpl in Fa. discriminate (Fa (conj Hr eq_refl)).
    - apply forallb_forall. intros x Hx. apply filter_In in Hx as [Hx Hxn].
      rewrite andb_true_r in Hxn.
      destruct (Z.eqb_spec (sm_id r) (sm_id x)) as [Ei|Ei]; [|reflexivity].
      exfalso. rewrite (NoDup_map_eq sm_id (sitemaps s) r x Hnd Hr Hx Ei) in En.
      congruence. }
  split; [exact E|].
  rewrite E. unfold findMany_sitemap; simpl. rewrite filter_filter_and.
  apply filter_nil_of. intros x _.
  destruct (String.eqb (sm_name x) name); reflexivity.
Qed.

Lemma deleteSitemap_removes_name_witness :
  findMany_sitemap (deleteSitemap sitemaps_store "default") "default" None = [].
Proof.
  apply (proj2 (deleteSitemap_removes_name sitemaps_store "default" ltac:(vm_compute; repeat constructor; simpl; intuition discriminate))).
Defined.

(** ** Further properties of the persistence helpers *)

(** After [createSitemap] on a key with at most one row, [getSitemap]
    returns the row just created. *)
Theorem getSitemap_createSitemap s str name d :
  (length (findMany_sitemap s name (Some d)) <= 1)%nat ->
  getSitemap (createSitemap s str name d) name d
  = Some {| sm_id := next_sitemap_id s; sitemap_string := str; sm_name := name; delta := d |}.
Proof.
  unfold getSitemap, createSitemap, findMany_sitemap.
  destruct (filter _ (sitemaps s)) as [|r [|r' rest]] eqn:Hf; simpl; intros Hle;
    [| |lia]; unfold create_sitemap; simpl; rewrite filter_app; simpl;
    rewrite String.eqb_refl, Z.eqb_refl.
  - rewrite Hf. reflexivity.
  - rewrite (filter_after_delete _ sm_id _ r Hf). reflexivity.
Qed.

Lemma getSitemap_createSitemap_witness :
  getSitemap (createSitemap sitemaps_store "new" "default" 1) "default" 1
  = Some {| sm_id := 4; sitemap_string := "new"; sm_name := "default"; delta := 1 |}.
Proof. apply (getSitemap_createSitemap sitemaps_store "new" "default" 1); vm_compute; lia. Defined.

(** After [createSitemapCache] on a name with at most one row,
    [getSitemapCache] returns the row just created. *)
Theorem getSitemapCache_createSitemapCache s json name :
  (length (findMany_cache s name) <= 1)%nat ->
  getSitemapCache (createSitemapCache s json name) name
  = Some {| smc_id := next_cache_id s; sitemap_json := json; smc_name := name |}.
Proof.
  unfold getSitemapCache, createSitemapCache, findMany_cache.
  destruct (filter _ (sitemap_caches s)) as [|r [|r' rest]] eqn:Hf; simpl; intros Hle;
    [| |lia]; unfold create_cache; simpl; rewrite filter_app; simpl;
    rewrite String.eqb_refl.
  - rewrite Hf. reflexivity.
  - rewrite (filter_after_delete _ smc_id _ r Hf). reflexivity.
Qed.

Lemma getSitemapCache_createSitemapCache_witness :
  getSitemapCache (createSitemapCache two_caches_store "{}" "other") "other"
  = Some {| smc_id := 3; sitemap_json := "{}"; smc_name := "other" |}.
Proof.
  apply (getSitemapCache_createSitemapCache two_caches_store "{}" "other"); vm_compute; lia.
Defined.

Lemma hd_filter_update l r rest name json :
  filter (fun x => String.eqb (smc_name x) name) l = r :: rest ->
  hd_error (filter (fun x => String.eqb (smc_name x) name)
              (map (fun x => if Z.eqb (smc_id x) (smc_id r)
                             then {| smc_id := smc_id x; sitemap_json := json; smc_name := name |}
                             else x) l))
  = Some {| smc_id := smc_id r; sitemap_json := json; smc_name := name |}.
Proof.
  induction l as [|x l IH]; simpl; [discriminate|].
  destruct (String.eqb (smc_name x) name) eqn:En.
  - intros H; inversion H; subst. rewrite Z.eqb_refl. simpl.
    rewrite String.eqb_refl. reflexivity.
  - intros H. destruct (Z.eqb_spec (smc_id x) (smc_id r)) as [Ei|Ei]; simpl.
    + rewrite String.eqb_refl, Ei. reflexivity.
    + rewrite En. apply IH; assumption.
Qed.

(** After [updateSitemapCache] on a name that has a row, [getSitemapCache]
    returns that row's primary key with the new JSON. *)
Theorem getSitemapCache_updateSitemapCache s json name r :
  getSitemapCache s name = Some r ->
  getSitemapCache (updateSitemapCache s json name) name
  = Some {| smc_id := smc_id r; sitemap_json := json; smc_name := name |}.
Proof.
  unfold getSitemapCache, updateSitemapCache, findMany_cache.
  destruct (filter _ (sitemap_caches s)) as [|r0 rest] eqn:Hf; simpl; [discriminate|].
  intros H; inversion H; subst. unfold update_cache; simpl.
  apply (hd_filter_update _ _ rest); assumption.
Qed.

Lemma getSitemapCache_updateSitemapCache_witness :
  getSitemapCache (updateSitemapCache two_caches_store "new" "default") "default"
  = Some {| smc_id := 1; sitemap_json := "new"; smc_name := "default" |}.
Proof.
  apply (getSitemapCache_updateSitemapCache two_caches_store "new" "default"
           {| smc_id := 1; sitemap_json := "{}"; smc_name := "default" |}).
  reflexivity.
Defined.

Lemma deleteSitemap_sitemaps s name :
  NoDup (map sm_id (sitemaps s)) ->
  sitemaps (deleteSitemap s name) = filter (fun r => negb (String.eqb (sm_name r) name)) (sitemaps s).
Proof.
  intros Hnd. unfold deleteSitemap. rewrite fold_delete_sitemap. simpl.
  apply filter_ext_in. intros r Hr. unfold findMany_sitemap.
  destruct (String.eqb (sm_name r) name) eqn:En; simpl.
  - destruct (forallb _ _) eqn:Fa; [|reflexivity].
    rewrite forallb_forall in Fa. specialize (Fa r).
    rewrite filter_In, En, Z.eqb_refl in Fa. simpl in Fa. discriminate (Fa (conj Hr eq_refl)).
  - apply forallb_forall. intros x Hx. apply filter_In in Hx as [Hx Hxn].
    rewrite andb_true_r in Hxn.
    destruct (Z.eqb_spec (sm_id r) (sm_id x)) as [Ei|Ei]; [|reflexivity].
    exfalso. rewrite (NoDup_map_eq sm_id (sitemaps s) r x Hnd Hr Hx Ei) in En. congruence.
Qed.

(** After [deleteSitemap name], [getSitemap name d] finds nothing, for
    every delta. *)
Theorem getSitemap_deleteSitemap s name d :
  NoDup (map sm_id (sitemaps s)) -> getSitemap (deleteSitemap s name) name d = None.
Proof.
  intros Hnd. unfold getSitemap, findMany_sitemap. rewrite deleteSitemap_sitemaps by assumption.
  rewrite filter_filter_and, filter_nil_of; [reflexivity|].
  intros x _. destruct (String.eqb (sm_name x) name); reflexivity.
Qed.

Lemma getSitemap_deleteSitemap_witness :
  getSitemap (deleteSitemap sitemaps_store "default") "default" 1 = None.
Proof.
  apply getSitemap_deleteSitemap. vm_compute. repeat constructor; simpl; intuition discriminate.
Defined.

(** ** Store invariants kept by the helpers *)

Lemma NoDup_map_filter {A} (f : A -> Z) (p : A -> bool) l :
  NoDup (map f l) -> NoDup (map f (filter p l)).
Proof.
  induction l as [|x r IH]; simpl; intros Hnd; [constructor|].
  inversion Hnd as [|? ? Hn Hr]; subst.
  destruct (p x); simpl; [|apply IH; assumption].
  constructor; [|apply IH; assumption].
  intros Hin; apply Hn. apply in_map_iff in Hin as [y [Ey Hy]].
  apply filter_In in Hy as [Hy _]. rewrite <- Ey. apply in_map; assumption.
Qed.

Lemma Forall_filter_sub {A} (P : A -> Prop) (p : A -> bool) l :
  Forall P l -> Forall P (filter p l).
Proof.
  rewrite !Forall_forall. intros H x Hx. apply filter_In in Hx as [Hx _]. auto.
Qed.

Lemma NoDup_map_app_fresh {A} (f : A -> Z) l x n :
  NoDup (map f l) -> Forall (fun r => f r < n) l -> f x = n -> NoDup (map f (l ++ [x])).
Proof.
  intros Hnd Hlt Hx. rewrite map_app. apply NoDup_app; [assumption | repeat constructor; intros [] |].
  intros a Ha [Ea|[]]. apply in_map_iff in Ha as [y [Ey Hy]].
  rewrite Forall_forall in Hlt. specialize (Hlt y Hy). lia.
Qed.

Lemma Forall_app_fresh {A} (f : A -> Z) l x n :
  Forall (fun r => f r < n) l -> f x = n -> Forall (fun r => f r < n + 1) (l ++ [x]).
Proof.
  intros Hlt Hx. apply Forall_app. split; [|constructor; [lia | constructor]].
  eapply Forall_impl; [|exact Hlt]. simpl; intros; lia.
Qed.

Lemma delete_sitemap_wf s id : store_wf s -> store_wf (delete_sitemap s id).
Proof.
  intros (H1 & H2 & H3 & H4). unfold delete_sitemap, store_wf; simpl.
  split; [apply NoDup_map_filter; assumption|].
  split; [apply Forall_filter_sub; assumption|]. auto.
Qed.

Lemma create_sitemap_wf s str name d : store_wf s -> store_wf (create_sitemap s str name d).
Proof.
  intros (H1 & H2 & H3 & H4). unfold create_sitemap, store_wf; simpl.
  split; [apply (NoDup_map_app_fresh _ _ _ (next_sitemap_id s)); auto|].
  split; [apply Forall_app_fresh; auto|]. auto.
Qed.

Lemma delete_cache_wf s id : store_wf s -> store_wf (delete_cache s id).
Proof.
  intros (H1 & H2 & H3 & H4). unfold delete_cache, store_wf; simpl.
  split; [assumption|]. split; [assumption|].
  split; [apply NoDup_map_filter; assumption | apply Forall_filter_sub; assumption].
Qed.

Lemma create_cache_wf s json name : store_wf s -> store_wf (create_cache s json name).
Proof.
  intros (H1 & H2 & H3 & H4). unfold create_cache, store_wf; simpl.
  split; [assumption|]. split; [assumption|].
  split; [apply (NoDup_map_app_fresh _ _ _ (next_cache_id s)); auto | apply Forall_app_fresh; auto].
Qed.

Lemma update_cache_ids l id json name :
  map smc_id (map (fun r => if Z.eqb (smc_id r) id
                            then {| smc_id := smc_id r; sitemap_json := json; smc_name := name |}
                            else r) l) = map smc_id l.
Proof.
  induction l as [|x r IH]; simpl; [reflexivity|].
  rewrite IH. destruct (Z.eqb (smc_id x) id); reflexivity.
Qed.

Lemma update_cache_wf s id json name : store_wf s -> store_wf (update_cache s id json name).
Proof.
  intros (H1 & H2 & H3 & H4). unfold update_cache, store_wf; simpl.
  split; [assumption|]. split; [assumption|]. split.
  - rewrite update_cache_ids. assumption.
  - rewrite Forall_forall in *. intros x Hx. apply in_map_iff in Hx as [y [<- Hy]].
    destruct (Z.eqb (smc_id y) id); simpl; apply H4; assumption.
Qed.

Lemma fold_delete_wf l s :
  store_wf s -> store_wf (fold_left (fun s sm => delete_sitemap s (sm_id sm)) l s).
Proof.
  revert s; induction l as [|x r IH]; intros s Hs; simpl; [assumption|].
  apply IH, delete_sitemap_wf, Hs.
Qed.

Lemma length_filter_and {A} (p q : A -> bool) l :
  (length (filter (fun x => q x && p x) l) <= length (filter p l))%nat.
Proof.
  induction l as [|x r IH]; simpl; [lia|].
  destruct (q x), (p x); simpl; lia.
Qed.

Lemma length_filter_map_same {A} (p : A -> bool) (f : A -> A) l :
  (forall x, In x l -> p (f x) = p x) -> length (filter p (map f l)) = length (filter p l).
Proof.
  induction l as [|x r IH]; simpl; intros H; [reflexivity|].
  rewrite (H x (or_introl eq_refl)).
  destruct (p x); simpl; rewrite IH; auto; intros y Hy; apply H; right; assumption.
Qed.

(** At most one row per key is kept: [createSitemap] and [deleteSitemap]
    keep one row per [(name, delta)] at most, [createSitemapCache] one
    cache row per name at most, and so does [updateSitemapCache] when the
    cache primary keys are distinct. *)
Theorem keys_unique_preserved s str json name d :
  (sitemap_keys_unique s ->
   sitemap_keys_unique (createSitemap s str name d) /\ sitemap_keys_unique (deleteSitemap s name)) /\
  (cache_names_unique s -> cache_names_unique (createSitemapCache s json name)) /\
  (NoDup (map smc_id (sitemap_caches s)) -> cache_names_unique s ->
   cache_names_unique (updateSitemapCache s json name)).
Proof.
  split; [|split].
  - intros Hu. split.
    + intros n' d'. destruct (String.eqb name n' && Z.eqb d d') eqn:Hk.
      * apply andb_true_iff in Hk as [E1 E2].
        apply String.eqb_eq in E1; apply Z.eqb_eq in E2; subst.
        rewrite createSitemap_one; [lia | apply Hu].
      * specialize (Hu n' d'). unfold createSitemap.
        destruct (findMany_sitemap s name (Some d)) as [|r rest];
          unfold findMany_sitemap, create_sitemap, delete_sitemap in *; simpl;
          rewrite filter_app; simpl; rewrite Hk, app_nil_r; [exact Hu|].
        rewrite filter_filter_and. eapply Nat.le_trans; [apply length_filter_and | exact Hu].
    + intros n' d'. specialize (Hu n' d'). unfold deleteSitemap.
      rewrite fold_delete_sitemap. unfold findMany_sitemap in *; simpl.
      rewrite filter_filter_and. eapply Nat.le_trans; [apply length_filter_and | exact Hu].
  - intros Hu n'. destruct (String.eqb name n') eqn:Hk.
    + apply String.eqb_eq in Hk; subst. rewrite createSitemapCache_one; [lia | apply Hu].
    + specialize (Hu n'). unfold createSitemapCache.
      destruct (findMany_cache s name) as [|r rest];
        unfold findMany_cache, create_cache, delete_cache in *; simpl;
        rewrite filter_app; simpl; rewrite Hk, app_nil_r; [exact Hu|].
      rewrite filter_filter_and. eapply Nat.le_trans; [apply length_filter_and | exact Hu].
  - intros Hnd Hu n'. specialize (Hu n'). unfold updateSitemapCache.
    destruct (findMany_cache s name) as [|r rest] eqn:Hf; [exact Hu|].
    unfold findMany_cache, update_cache in *; simpl.
    assert (Hr : In r (sitemap_caches s) /\ String.eqb (smc_name r) name = true)
      by (apply (proj1 (filter_In (fun x => String.eqb (smc_name x) name) r _));
          rewrite Hf; left; reflexivity).
    destruct Hr as [Hr Hrn]. apply String.eqb_eq in Hrn.
    rewrite length_filter_map_same; [exact Hu|].
    intros x Hx. destruct (Z.eqb_spec (smc_id x) (smc_id r)) as [E|E]; [|reflexivity].
    rewrite (NoDup_map_eq smc_id _ x r Hnd Hx Hr E). simpl. rewrite Hrn. reflexivity.
Qed.

Lemma keys_unique_preserved_witness :
  sitemap_keys_unique (createSitemap sitemaps_store "<urlset/>" "default" 0) /\
  sitemap_keys_unique (deleteSitemap sitemaps_store "default") /\
  cache_names_unique (createSitemapCache one_cache_store "{}" "default") /\
  cache_names_unique (updateSitemapCache one_cache_store "{}" "default").
Proof.
  assert (Hs : sitemap_keys_unique sitemaps_store).
  { intros n d'. unfold findMany_sitemap.
    cbn [sitemaps sitemaps_store filter sm_name delta].
    destruct (String.eqb "default" n) eqn:Ed, (String.eqb "other" n) eqn:Eo,
      (Z.eqb 0 d') eqn:E0, (Z.eqb 1 d') eqn:E1; cbn; try lia;
      first [apply Z.eqb_eq in E0, E1; lia | apply String.eqb_eq in Ed, Eo; congruence]. }
  assert (Hc : cache_names_unique one_cache_store).
  { intros n. unfold findMany_cache.
    cbn [sitemap_caches one_cache_store filter smc_name].
    destruct (String.eqb "default" n) eqn:E1, (String.eqb "other" n) eqn:E2; cbn; try lia.
    apply String.eqb_eq in E1, E2. congruence. }
  destruct (keys_unique_preserved sitemaps_store "<urlset/>" "{}" "default" 0) as [K1 _].
  destruct (keys_unique_preserved one_cache_store "<urlset/>" "{}" "default" 0) as [_ [K2 K3]].
  destruct (K1 Hs) as [H1 H2].
  split; [exact H1|]. split; [exact H2|]. split; [exact (K2 Hc)|].
  apply K3; [vm_compute; repeat constructor; simpl; intuition discriminate|exact Hc].
Defined.

Lemma filter_cons_In {A} (p : A -> bool) l r rest :
  filter p l = r :: rest -> In r l /\ p r = true.
Proof. intros H. apply filter_In. rewrite H. left. reflexivity. Qed.

Lemma filter_map_frame {A} (p : A -> bool) (f : A -> A) l :
  (forall x, In x l -> f x = x \/ (p (f x) = false /\ p x = false)) ->
  filter p (map f l) = filter p l.
Proof.
  induction l as [|x r IH]; simpl; intros H; [reflexivity|].
  rewrite IH by (intros y Hy; apply H; right; assumption).
  destruct (H x (or_introl eq_refl)) as [->|[E1 E2]]; [reflexivity|].
  rewrite E1, E2. reflexivity.
Qed.

(** On a well-formed store each helper touches only its own key:
    [createSitemap] leaves the cache table and the rows of every other
    [(name, delta)] as they are; [createSitemapCache] and
    [updateSitemapCache] leave the sitemap table and the cache rows of every
    other name as they are. *)
Theorem helpers_frame s str json name d :
  store_wf s ->
  sitemap_caches (createSitemap s str name d) = sitemap_caches s /\
  (forall n' d', n' <> name \/ d' <> d ->
     findMany_sitemap (createSitemap s str name d) n' (Some d') = findMany_sitemap s n' (Some d')) /\
  sitemaps (createSitemapCache s json name) = sitemaps s /\
  (forall n', n' <> name ->
     findMany_cache (createSitemapCache s json name) n' = findMany_cache s n') /\
  sitemaps (updateSitemapCache s json name) = sitemaps s /\
  (forall n', n' <> name ->
     findMany_cache (updateSitemapCache s json name) n' = findMany_cache s n').
Proof.
  intros (Hnd & _ & Hcnd & _).
  split; [unfold createSitemap; destruct (findMany_sitemap s name (Some d)); reflexivity|].
  split.
  { intros n' d' Hne.
    assert (Hk : (String.eqb name n' && Z.eqb d d') = false)
      by (destruct (String.eqb_spec name n'), (Z.eqb_spec d d'); subst; try reflexivity;
          destruct Hne; congruence).
    unfold createSitemap.
    destruct (findMany_sitemap s name (Some d)) as [|r rest] eqn:Hf;
      unfold findMany_sitemap, create_sitemap, delete_sitemap in *; simpl;
      rewrite filter_app; simpl; rewrite Hk, app_nil_r; [reflexivity|].
    destruct (filter_cons_In _ _ _ _ Hf) as [Hr Hrk].
    rewrite filter_filter_and. apply filter_ext_in. intros x Hx.
    destruct ((sm_name x =? n')%string && (delta x =? d')) eqn:Ek;
      [|rewrite andb_false_r; reflexivity].
    rewrite andb_true_r.
    destruct (Z.eqb_spec (sm_id x) (sm_id r)) as [E|E]; [|reflexivity].
    rewrite (NoDup_map_eq sm_id _ x r Hnd Hx Hr E) in Ek.
    apply andb_true_iff in Ek as [Ek1 Ek2], Hrk as [Hr1 Hr2].
    apply String.eqb_eq in Ek1, Hr1. apply Z.eqb_eq in Ek2, Hr2.
    rewrite <- Hr1, <- Hr2, Ek1, Ek2, String.eqb_refl, Z.eqb_refl in Hk. discriminate. }
  split; [unfold createSitemapCache; destruct (findMany_cache s name); reflexivity|].
  split.
  { intros n' Hne.
    assert (Hk : String.eqb name n' = false)
      by (apply String.eqb_neq; intros E; apply Hne; symmetry; exact E).
    unfold createSitemapCache.
    destruct (findMany_cache s name) as [|r rest] eqn:Hf;
      unfold findMany_cache, create_cache, delete_cache in *; simpl;
      rewrite filter_app; simpl; rewrite Hk, app_nil_r; [reflexivity|].
    destruct (filter_cons_In _ _ _ _ Hf) as [Hr Hrk].
    rewrite filter_filter_and. apply filter_ext_in. intros x Hx.
    destruct (smc_name x =? n')%string eqn:Ek; [|rewrite andb_false_r; reflexivity].
    rewrite andb_true_r.
    destruct (Z.eqb_spec (smc_id x) (smc_id r)) as [E|E]; [|reflexivity].
    rewrite (NoDup_map_eq smc_id _ x r Hcnd Hx Hr E) in Ek.
    apply String.eqb_eq in Ek, Hrk. congruence. }
  split; [unfold updateSitemapCache; destruct (findMany_cache s name); reflexivity|].
  intros n' Hne. unfold updateSitemapCache.
  destruct (findMany_cache s name) as [|r rest] eqn:Hf; [reflexivity|].
  unfold findMany_cache, update_cache in *; simpl.
  destruct (filter_cons_In _ _ _ _ Hf) as [Hr Hrk]. apply String.eqb_eq in Hrk.
  apply filter_map_frame. intros x Hx.
  destruct (Z.eqb_spec (smc_id x) (smc_id r)) as [E|E]; [right|left; reflexivity].
  rewrite (NoDup_map_eq smc_id _ x r Hcnd Hx Hr E). simpl. rewrite Hrk.
  assert (Hk : String.eqb name n' = false)
    by (apply String.eqb_neq; intros E'; apply Hne; symmetry; exact E').
  split; assumption.
Qed.

Lemma helpers_frame_witness :
  findMany_cache (createSitemapCache (createSitemapCache empty_store "{}" "default") "{}" "other")
    "default"
  = findMany_cache (createSitemapCache empty_store "{}" "default") "default".
Proof.
  apply (proj1 (proj2 (proj2 (proj2 (helpers_frame
           (createSitemapCache empty_store "{}" "default") "" "{}" "other" 0
           ltac:(vm_compute; repeat split; repeat constructor; simpl; intuition lia)))))).
  discriminate.
Defined.

(** ** Further properties of the aggregation *)

Lemma push_fields_In svc langs tl rel acc pf x :
  push_fields svc langs tl rel acc = Ok pf ->
  (In x pf <-> In x acc \/
    exists lc l fsl, In (lc, l) langs /\ getFieldsFromPattern svc (pattern l) tl rel = Ok fsl /\
                     In x fsl).
Proof.
  revert acc; induction langs as [|[lc l] r IH]; intros acc H; simpl in H.
  - inversion H; subst. split; [tauto|]. intros [H1|(lc & l & fsl & [] & _)]; assumption.
  - destruct (getFieldsFromPattern svc (pattern l) tl rel) as [fs|e] eqn:Hp;
      simpl in H; [|discriminate].
    rewrite (IH _ H), in_app_iff. split.
    + intros [[H1|H1]|(lc' & l' & fsl & H1 & H2 & H3)]; [left; assumption| |].
      * right. exists lc, l, fs. split; [left; reflexivity|]. auto.
      * right. exists lc', l', fsl. split; [right; assumption|]. auto.
    + intros [H1|(lc' & l' & fsl & [E|H1] & H2 & H3)]; [left; left; assumption| |].
      * inversion E; subst. rewrite Hp in H2. inversion H2; subst. left; right; assumption.
      * right. exists lc', l', fsl. auto.
Qed.

(** A field is in the list [getFieldsFromConfig] returns for a configured
    content type exactly when one language's pattern yields it (with the
    same [topLevel] and [relation]), or it is [updatedAt] or, when
    localized, [locale] appended at [topLevel]. The list is the union over
    the languages. *)
Theorem getFieldsFromConfig_In svc c langs tl il rel fs x :
  languages c = Some langs ->
  getFieldsFromConfig svc (Some c) tl il rel = Ok fs ->
  (In x fs <->
   (exists lc l fsl, In (lc, l) langs /\ getFieldsFromPattern svc (pattern l) tl rel = Ok fsl /\
                     In x fsl) \/
   (tl = true /\ (x = "updatedAt" \/ (il = true /\ x = "locale")))).
Proof.
  intros Hl H. unfold getFieldsFromConfig in H. rewrite Hl in H.
  destruct (push_fields svc langs tl rel []) as [pf|e] eqn:Hp; simpl in H; [|discriminate].
  inversion H; subst. rewrite new_Set_In.
  destruct tl, il; rewrite ?in_app_iff, (push_fields_In _ _ _ _ _ _ x Hp); simpl;
    intuition congruence.
Qed.

Lemma getFieldsFromConfig_In_witness :
  In "category.name" ["title"; "titre"; "category.name"].
Proof.
  apply (proj2 (getFieldsFromConfig_In SpecPattern.service example_config
                  [("en", {| pattern := "/posts/[title]" |});
                   ("fr", {| pattern := "/articles/[titre]/[category.name]" |})]
                  false false None ["title"; "titre"; "category.name"] "category.name"
                  eq_refl eq_refl)).
  left. exists "fr", {| pattern := "/articles/[titre]/[category.name]" |},
    ["titre"; "category.name"].
  split; [right; left; reflexivity | split; [reflexivity | right; left; reflexivity]].
Defined.

Lemma push_fields_ok svc langs tl rel acc :
  (exists pf, push_fields svc langs tl rel acc = Ok pf) <->
  (forall lc l, In (lc, l) langs -> exists fsl, getFieldsFromPattern svc (pattern l) tl rel = Ok fsl).
Proof.
  revert acc; induction langs as [|[lc l] r IH]; intros acc; simpl.
  - split; [intros _ lc l []|intros _; eexists; reflexivity].
  - destruct (getFieldsFromPattern svc (pattern l) tl rel) as [fs|e] eqn:Hp; simpl.
    + rewrite IH. split.
      * intros H lc' l' [E|Hin]; [inversion E; subst; exists fs; assumption | apply (H lc'); assumption].
      * intros H lc' l' Hin. apply (H lc'). right; assumption.
    + split; [intros [pf Hpf]; discriminate|].
      intros H. destruct (H lc l (or_introl eq_refl)) as [fsl Hfsl]. congruence.
Qed.

(** For a configured content type, [getFieldsFromConfig] returns a list
    exactly when the pattern service succeeds on every language's pattern;
    one failing pattern makes the whole call fail. *)
Theorem getFieldsFromConfig_ok_iff svc c langs tl il rel :
  languages c = Some langs ->
  ((exists fs, getFieldsFromConfig svc (Some c) tl il rel = Ok fs) <->
   (forall lc l, In (lc, l) langs ->
      exists fsl, getFieldsFromPattern svc (pattern l) tl rel = Ok fsl)).
Proof.
  intros Hl. rewrite <- (push_fields_ok svc langs tl rel []).
  unfold getFieldsFromConfig. rewrite Hl.
  destruct (push_fields svc langs tl rel []) as [pf|e]; simpl.
  - split; intros _; eexists; reflexivity.
  - split; intros [x Hx]; discriminate.
Qed.

Lemma getFieldsFromConfig_ok_iff_witness :
  ~ (exists fs, getFieldsFromConfig SpecPattern.service
                  (Some {| languages := Some [("en", {| pattern := "/[title]" |});
                                              ("nl", {| pattern := "/[titel" |})] |})
                  false false None = Ok fs).
Proof.
  rewrite (getFieldsFromConfig_ok_iff SpecPattern.service
             {| languages := Some [("en", {| pattern := "/[title]" |});
                                   ("nl", {| pattern := "/[titel" |})] |} _ false false None
             eq_refl).
  intros H. destruct (H "nl" {| pattern := "/[titel" |} (or_intror (or_introl eq_refl)))
    as [fsl Hf].
  discriminate.
Defined.

Lemma obj_set_keys_In {V} (o : obj V) k' v k :
  In k (map fst (obj_set o k' v)) <-> k = k' \/ In k (map fst o).
Proof.
  induction o as [|[k0 v0] r IH]; simpl.
  - intuition congruence.
  - destruct (String.eqb k' k0) eqn:E; simpl.
    + apply String.eqb_eq in E; subst. intuition congruence.
    + rewrite IH. tauto.
Qed.

Lemma set_relations_keys_In svc ct rels o o' k :
  set_relations svc ct rels o = Ok o' -> In k (map fst o) \/ In k rels -> In k (map fst o').
Proof.
  revert o; induction rels as [|r rs IH]; intros o H Hk; simpl in H.
  - inversion H; subst. destruct Hk as [Hk|[]]; assumption.
  - destruct (getFieldsFromConfig svc ct false false (Some r)); simpl in H; [|discriminate].
    apply (IH _ H). rewrite obj_set_keys_In. simpl in Hk. intuition congruence.
Qed.

Lemma relations_of_languages_keys_In svc ct langs o o' k :
  relations_of_languages svc ct langs o = Ok o' ->
  In k (map fst o) \/
  (exists lc l rels, In (lc, l) langs /\ getRelationsFromPattern svc (pattern l) = Ok rels /\
                     In k rels) ->
  In k (map fst o').
Proof.
  revert o; induction langs as [|[lc l] r IH]; intros o H Hk; simpl in H.
  - inversion H; subst. destruct Hk as [Hk|(lc & l & rels & [] & _)]; assumption.
  - destruct (getRelationsFromPattern svc (pattern l)) as [rels|e] eqn:Hr;
      simpl in H; [|discriminate].
    destruct (set_relations svc ct rels o) as [o1|e] eqn:Hs; simpl in H; [|discriminate].
    apply (IH _ H). destruct Hk as [Hk|(lc' & l' & rels' & [E|Hin] & H2 & H3)].
    + left. apply (set_relations_keys_In _ _ _ _ _ _ Hs). left; assumption.
    + inversion E; subst. rewrite Hr in H2. inversion H2; subst.
      left. apply (set_relations_keys_In _ _ _ _ _ _ Hs). right; assumption.
    + right. exists lc', l', rels'. auto.
Qed.

(** Every relation the pattern service finds in any language's pattern is
    a key of the relation map [getRelationsFromConfig] returns. *)
Theorem getRelationsFromConfig_complete svc c langs o :
  languages c = Some langs ->
  getRelationsFromConfig svc (Some c) = Ok o ->
  forall lc l rels k, In (lc, l) langs -> getRelationsFromPattern svc (pattern l) = Ok rels ->
                      In k rels -> In k (map fst o).
Proof.
  intros Hl H lc l rels k H1 H2 H3. unfold getRelationsFromConfig in H. rewrite Hl in H.
  apply (relations_of_languages_keys_In _ _ _ _ _ _ H). right. exists lc, l, rels. auto.
Qed.

Lemma getRelationsFromConfig_complete_witness :
  In "category" (map fst [("category", {| rel_fields := ["name"] |})]).
Proof.
  apply (getRelationsFromConfig_complete SpecPattern.service example_config
           [("en", {| pattern := "/posts/[title]" |});
            ("fr", {| pattern := "/articles/[titre]/[category.name]" |})]
           [("category", {| rel_fields := ["name"] |})] eq_refl eq_refl
           "fr" {| pattern := "/articles/[titre]/[category.name]" |} ["category"]).
  - right; left; reflexivity.
  - reflexivity.
  - left; reflexivity.
Defined.

(** [getPages] on a content type unknown to [strapi.contentTypes] throws
    ([.pluginOptions] of [undefined]); on a known content type without an
    entry in the plugin's [contentTypes] config it builds a query for
    [updatedAt] (and [locale] when localized) only, populating
    [localizations] alone. *)
Theorem getPagesQuery_missing_entries svc sct config uid id :
  (obj_get sct uid = None -> getPagesQuery svc sct config uid id = Err TypeError) /\
  (forall m, obj_get sct uid = Some m ->
     (truthy (excludeDrafts config) = true -> options m <> None) ->
     obj_get (contentTypes config) uid = None ->
     exists q, getPagesQuery svc sct config uid id = Ok q /\
       fs_fields q = (if truthy (i18n_localized m) then ["locale"; "updatedAt"] else ["updatedAt"]) /\
       fs_populate q = [("localizations", PopLocalizations (fs_fields q) [])]).
Proof.
  split.
  - intros H. unfold getPagesQuery. rewrite H.
    destruct (truthy (excludeDrafts config)); reflexivity.
  - intros m Hm Ho Hc. unfold getPagesQuery. rewrite Hm, Hc.
    destruct (truthy (excludeDrafts config)) eqn:Hx.
    + destruct (options m) as [o|] eqn:Hom; [|exfalso; apply (Ho eq_refl); reflexivity].
      cbn. destruct (truthy (i18n_localized m)); eexists; (split; [reflexivity|]); split; reflexivity.
    + cbn. destruct (truthy (i18n_localized m)); eexists; (split; [reflexivity|]); split; reflexivity.
Qed.

Lemma getPagesQuery_missing_entries_witness :
  exists q, getPagesQuery SpecPattern.service [("api::other.other", page_schema None (Some true))]
              (page_config example_config None) "api::other.other" None = Ok q /\
            fs_fields q = ["locale"; "updatedAt"] /\
            fs_populate q = [("localizations", PopLocalizations (fs_fields q) [])].
Proof.
  exact (proj2 (getPagesQuery_missing_entries SpecPattern.service
                  [("api::other.other", page_schema None (Some true))]
                  (page_config example_config None) "api::other.other" None)
           (page_schema None (Some true)) eq_refl (fun H => ltac:(discriminate H)) eq_refl).
Defined.

Lemma obj_spread_keys {V} (a b : obj V) k :
  In k (map fst (obj_spread a b)) <-> In k (map fst a) \/ In k (map fst b).
Proof.
  unfold obj_spread. revert a; induction b as [|[k' v'] r IH]; intros a; simpl.
  - tauto.
  - rewrite IH, obj_set_keys_In. intuition congruence.
Qed.

Lemma obj_spread_NoDup {V} (a b : obj V) :
  NoDup (map fst a) -> NoDup (map fst (obj_spread a b)).
Proof.
  unfold obj_spread. revert a; induction b as [|[k' v'] r IH]; intros a Ha; simpl;
    [assumption|].
  apply IH, obj_set_keys_NoDup, Ha.
Qed.

Lemma map_fst_pop (relations : obj RelationFields) :
  map fst (map (fun kv => (fst kv, PopRelation (snd kv))) relations) = map fst relations.
Proof. induction relations as [|x r IH]; simpl; [reflexivity|]. rewrite IH. reflexivity. Qed.

(** The populate object of a page query has no repeated key, and its keys
    are exactly [localizations] and the keys of the relation map. *)
Theorem getPagesQuery_populate_keys svc sct config uid id q :
  getPagesQuery svc sct config uid id = Ok q ->
  exists relations,
    getRelationsFromConfig svc (obj_get (contentTypes config) uid) = Ok relations /\
    NoDup (map fst (fs_populate q)) /\
    (forall k, In k (map fst (fs_populate q)) <-> k = "localizations" \/ In k (map fst relations)).
Proof.
  intros H.
  assert (Hq : exists relations fields,
             getRelationsFromConfig svc (obj_get (contentTypes config) uid) = Ok relations /\
             fs_populate q = pagePopulate fields relations).
  { revert H. unfold getPagesQuery.
    destruct (truthy (excludeDrafts config)) eqn:Hx;
      destruct (obj_get sct uid) as [m|] eqn:Hm; cbn [bind]; try discriminate;
      [destruct (options m) as [o|] eqn:Ho; cbn [bind]; [|discriminate]|];
      destruct (getRelationsFromConfig svc (obj_get (contentTypes config) uid))
        as [relations|] eqn:Hr; cbn [bind]; try discriminate;
      destruct (getFieldsFromConfig svc _ true _ None) as [fields|] eqn:Hf; cbn [bind];
        try discriminate;
      intros H; inversion H; subst; exists relations, fields; split; reflexivity. }
  destruct Hq as (relations & fields & Hr & ->). exists relations.
  split; [exact Hr|]. unfold pagePopulate. split.
  - apply obj_spread_NoDup. simpl. constructor; [intros []|constructor].
  - intros k. rewrite obj_spread_keys, map_fst_pop. simpl. intuition congruence.
Qed.

Lemma getPagesQuery_populate_keys_witness :
  exists relations,
    getRelationsFromConfig SpecPattern.service (Some example_config) = Ok relations /\
    ~ In "title" (map fst relations).
Proof.
  destruct (getPagesQuery_populate_keys SpecPattern.service
              [(page_uid, page_schema None (Some true))] (page_config example_config None)
              page_uid None _ eq_refl) as [relations [Hr [_ _]]].
  exists relations. split; [exact Hr|].
  vm_compute in Hr. inversion Hr; subst. simpl. intuition discriminate.
Defined.
